(** * Session storage adapter, request signing and the afterAuth hook

    A shallow embedding of

    - [CustomSessionStorage] (src/auth/session/storage/custom.ts),
    - the signing helpers [createTestHmac], [validWebhookHeaders] and
      [queryArgs] of the test helpers,
    - [triggerAfterAuthHook],

    together with the part of the JavaScript runtime these functions lean
    on: truthiness, [instanceof], [in], object spread, [typeof],
    [URLSearchParams] serialisation and Node's [crypto.createHmac]. *)

From Stdlib Require Import ZArith String Ascii List Lia.
From Stdlib Require Import Floats.SpecFloat.
From Stdlib Require Import Sorting.Sorted Sorting.Permutation.
From Stdlib Require OrderedTypeEx.
From stdpp Require Import gmap strings.

Set Warnings "-register-all".
Local Open Scope Z_scope.

(** ** Bytes

    A JavaScript string is kept as the sequence of its UTF-8 bytes (a Rocq
    [string]), which is what [update(body, 'utf8')] and the URL serialiser
    work on. *)

Definition byte_of_ascii (c : ascii) : Z := Z.of_N (N_of_ascii c).
Definition ascii_of_byte (b : Z) : ascii := ascii_of_N (Z.to_N (b mod 256)).

Definition bytes_of_string (s : string) : list Z :=
  map byte_of_ascii (list_ascii_of_string s).
Definition string_of_bytes (bs : list Z) : string :=
  string_of_list_ascii (map ascii_of_byte bs).

(** ** SHA-256 (FIPS 180-4) on 32-bit words held in [Z] *)

Module SHA256.

Definition wrap32 (x : Z) : Z := x mod 2 ^ 32.
Definition add32 (x y : Z) : Z := wrap32 (x + y).
Definition rotr (n x : Z) : Z :=
  Z.lor (Z.shiftr x n) (wrap32 (Z.shiftl x (32 - n))).
Definition not32 (x : Z) : Z := Z.lxor x (2 ^ 32 - 1).

Definition Ch (x y z : Z) : Z := Z.lxor (Z.land x y) (Z.land (not32 x) z).
Definition Maj (x y z : Z) : Z :=
  Z.lxor (Z.lxor (Z.land x y) (Z.land x z)) (Z.land y z).
Definition bsig0 (x : Z) : Z := Z.lxor (Z.lxor (rotr 2 x) (rotr 13 x)) (rotr 22 x).
Definition bsig1 (x : Z) : Z := Z.lxor (Z.lxor (rotr 6 x) (rotr 11 x)) (rotr 25 x).
Definition ssig0 (x : Z) : Z := Z.lxor (Z.lxor (rotr 7 x) (rotr 18 x)) (Z.shiftr x 3).
Definition ssig1 (x : Z) : Z := Z.lxor (Z.lxor (rotr 17 x) (rotr 19 x)) (Z.shiftr x 10).

(** The constants are the leading 32 fractional bits of the square roots
    (initial hash) and cube roots (round constants) of the first primes. *)

Definition is_prime (n : Z) : bool :=
  forallb (fun d => negb (n mod d =? 0)) (map Z.of_nat (seq 2 (Z.to_nat n - 2))).

Definition first_primes (count : nat) : list Z :=
  firstn count (filter is_prime (map Z.of_nat (seq 2 400))).

(** Largest [r] below [2 ^ bits] with [r ^ 3 <= n], one bit at a time. *)
Fixpoint icbrt (bits : nat) (n acc : Z) : Z :=
  match bits with
  | O => acc
  | S b =>
      let cand := acc + 2 ^ Z.of_nat b in
      icbrt b n (if cand * cand * cand <=? n then cand else acc)
  end.

Definition H_init : list Z :=
  Eval vm_compute in
    map (fun p => wrap32 (Z.sqrt (p * 2 ^ 64))) (first_primes 8).

Definition K : list Z :=
  Eval vm_compute in
    map (fun p => wrap32 (icbrt 40 (p * 2 ^ 96) 0)) (first_primes 64).

(** Padding: a [0x80] byte, zeros up to 56 mod 64, then the bit length as a
    64-bit big-endian integer. *)

Fixpoint be_bytes (n : nat) (x : Z) : list Z :=
  match n with
  | O => []
  | S m => (Z.shiftr x (8 * Z.of_nat m)) mod 256 :: be_bytes m x
  end.

Definition pad (msg : list Z) : list Z :=
  let len := Z.of_nat (length msg) in
  let zeros := Z.to_nat ((55 - len) mod 64) in
  msg ++ 128 :: repeat 0 zeros ++ be_bytes 8 (8 * len).

Fixpoint be_words (fuel : nat) (bs : list Z) : list Z :=
  match fuel, bs with
  | S f, b0 :: b1 :: b2 :: b3 :: rest =>
      (b0 * 16777216 + b1 * 65536 + b2 * 256 + b3) :: be_words f rest
  | _, _ => []
  end.

Definition words_of_bytes (bs : list Z) : list Z := be_words (length bs) bs.

Fixpoint chunks16 (fuel : nat) (ws : list Z) : list (list Z) :=
  match fuel, ws with
  | S f, _ :: _ => firstn 16 ws :: chunks16 f (skipn 16 ws)
  | _, _ => []
  end.

(** Message schedule, most recent word first: with [W(t-1)] at the head,
    [W(t-2)], [W(t-7)], [W(t-15)] and [W(t-16)] sit at offsets 1, 6, 14, 15. *)
Fixpoint extend (n : nat) (rw : list Z) : list Z :=
  match n with
  | O => rw
  | S m =>
      let w := add32 (add32 (ssig1 (nth 1 rw 0)) (nth 6 rw 0))
                     (add32 (ssig0 (nth 14 rw 0)) (nth 15 rw 0)) in
      extend m (w :: rw)
  end.

Definition schedule (block : list Z) : list Z := rev (extend 48 (rev block)).

Record state := State { sa : Z; sb : Z; sc : Z; sd : Z; se : Z; sf : Z; sg : Z; sh : Z }.

Definition round (s : state) (kw : Z * Z) : state :=
  let '(k, w) := kw in
  let t1 := add32 (add32 (add32 (sh s) (bsig1 (se s))) (add32 (Ch (se s) (sf s) (sg s)) k)) w in
  let t2 := add32 (bsig0 (sa s)) (Maj (sa s) (sb s) (sc s)) in
  State (add32 t1 t2) (sa s) (sb s) (sc s) (add32 (sd s) t1) (se s) (sf s) (sg s).

Definition state_of_list (h : list Z) : state :=
  State (nth 0 h 0) (nth 1 h 0) (nth 2 h 0) (nth 3 h 0)
        (nth 4 h 0) (nth 5 h 0) (nth 6 h 0) (nth 7 h 0).

Definition list_of_state (s : state) : list Z :=
  [sa s; sb s; sc s; sd s; se s; sf s; sg s; sh s].

Definition compress (h : list Z) (block : list Z) : list Z :=
  let s := fold_left round (combine K (schedule block)) (state_of_list h) in
  map (fun p => add32 (fst p) (snd p)) (combine h (list_of_state s)).

Definition digest (msg : list Z) : list Z :=
  let ws := words_of_bytes (pad msg) in
  let h := fold_left compress (chunks16 (length ws) ws) H_init in
  flat_map (be_bytes 4) h.

End SHA256.

(** ** HMAC (RFC 2104) over SHA-256, block size 64 *)

Definition hmac_sha256 (key msg : list Z) : list Z :=
  let k0 := if (64 <? Z.of_nat (length key)) then SHA256.digest key else key in
  let k := k0 ++ repeat 0 (64 - length k0)%nat in
  let ipad := map (fun b => Z.lxor b 54) k in
  let opad := map (fun b => Z.lxor b 92) k in
  SHA256.digest (opad ++ SHA256.digest (ipad ++ msg)).

(** ** Binary-to-text encodings of [digest(...)] *)

Definition hex_digit (n : Z) : ascii :=
  ascii_of_byte (if n <? 10 then 48 + n else 87 + n).

Fixpoint hex_encode (bs : list Z) : string :=
  match bs with
  | [] => EmptyString
  | b :: rest =>
      String (hex_digit (b / 16)) (String (hex_digit (b mod 16)) (hex_encode rest))
  end.

Definition base64_digit (n : Z) : ascii :=
  ascii_of_byte
    (if n <? 26 then 65 + n
     else if n <? 52 then 71 + n
     else if n <? 62 then n - 4
     else if n =? 62 then 43 else 47).

Fixpoint base64_encode (bs : list Z) : string :=
  match bs with
  | [] => EmptyString
  | [b0] =>
      String (base64_digit (b0 / 4))
        (String (base64_digit (b0 mod 4 * 16)) "==")
  | [b0; b1] =>
      String (base64_digit (b0 / 4))
        (String (base64_digit (b0 mod 4 * 16 + b1 / 16))
           (String (base64_digit (b1 mod 16 * 4)) "="))
  | b0 :: b1 :: b2 :: rest =>
      String (base64_digit (b0 / 4))
        (String (base64_digit (b0 mod 4 * 16 + b1 / 16))
           (String (base64_digit (b1 mod 16 * 4 + b2 / 64))
              (String (base64_digit (b2 mod 64)) (base64_encode rest))))
  end.

(** ** JavaScript values

    Objects are described by what this code can observe of them: the class
    they are an instance of ([instanceof], [constructor.name]), the data
    properties they inherit from the prototype of that class, and their own
    enumerable data properties, used as a map from keys to values.  Every
    object inherits from [Object.prototype]; objects without a prototype
    and accessor properties are not part of this model. *)

Inductive js_class :=
| ClsObject                  (* a plain record: object literal, parsed JSON *)
| ClsSession                 (* instance of the Session class *)
| ClsOther (name : string) (inherited : gmap string value)
                             (* instance of any other class, with the data
                                properties found on its prototype chain *)
with value :=
| VUndefined
| VNull
| VBool (b : bool)
| VNumber (x : spec_float)
| VString (s : string)
| VDate (time : option Z)    (* time value in ms; [None] is an Invalid Date *)
| VArray (elems : list value)
| VObject (cls : js_class) (props : gmap string value).

(** [ToBoolean]: the falsy values are undefined, null, false, +0, -0, NaN
    and the empty string. *)
Definition truthy (v : value) : bool :=
  match v with
  | VUndefined | VNull => false
  | VBool b => b
  | VNumber (S754_zero _) | VNumber S754_nan => false
  | VNumber _ => true
  | VString s => negb (String.eqb s "")
  | VDate _ | VArray _ | VObject _ _ => true
  end.

Definition typeof (v : value) : string :=
  match v with
  | VUndefined => "undefined"
  | VNull => "object"
  | VBool _ => "boolean"
  | VNumber _ => "number"
  | VString _ => "string"
  | VDate _ | VArray _ | VObject _ _ => "object"
  end.

Definition instanceof_Session (v : value) : bool :=
  match v with
  | VObject ClsSession _ => true
  | _ => false
  end.

Definition instanceof_Object (v : value) : bool :=
  match v with
  | VDate _ | VArray _ | VObject _ _ => true
  | _ => false
  end.

Definition instanceof_Array (v : value) : bool :=
  match v with
  | VArray _ => true
  | _ => false
  end.

(** The data properties an instance finds on its prototype chain. *)
Definition inherited_props (c : js_class) : gmap string value :=
  match c with
  | ClsOther _ inherited => inherited
  | ClsObject | ClsSession => ∅
  end.

(** The property [key] of [v], own first, then inherited, for a name that
    is not an array index or a method of a built-in prototype. *)
Definition lookup_property (v : value) (key : string) : option value :=
  match v with
  | VObject c props =>
      match props !! key with
      | Some x => Some x
      | None => inherited_props c !! key
      end
  | _ => None
  end.

(** [key in v] *)
Definition has_property (key : string) (v : value) : bool :=
  bool_decide (is_Some (lookup_property v key)).

(** [v.key]; a missing property reads as undefined. *)
Definition get_property (v : value) (key : string) : value :=
  default VUndefined (lookup_property v key).

Definition class_name (c : js_class) : string :=
  match c with
  | ClsObject => "Object"
  | ClsSession => "Session"
  | ClsOther name _ => name
  end.

(** [{...a, ...b}]: a plain record with the own properties of [a] overlaid
    by those of [b]. *)
Definition own_props (v : value) : gmap string value :=
  match v with
  | VObject _ props => props
  | _ => ∅
  end.

Definition spread (a b : value) : value :=
  VObject ClsObject (own_props b ∪ own_props a).

(** [v.key = x] on an object. *)
Definition set_property (v : value) (key : string) (x : value) : value :=
  match v with
  | VObject c props => VObject c (<[key := x]> props)
  | _ => v
  end.

(** ** Exceptions and awaited results

    A value a callback throws or rejects with is observed through its class
    and through the text [`${error}`] renders for it.  A Symbol, or an
    object that cannot be converted to a primitive, has no such text:
    rendering it throws a TypeError. *)

Record rejection := Rejection { rejection_class : string; rejection_text : option string }.

Inductive settled (A : Type) :=
| Resolved (a : A)
| Rejected (r : rejection).
Arguments Resolved {A} a.
Arguments Rejected {A} r.

Inductive thrown :=
| SessionStorageError (message : string)   (* new ShopifyErrors.SessionStorageError(message) *)
| Uncaught (r : rejection).                (* an exception that passes through as it is *)

Inductive outcome (A : Type) :=
| Returns (a : A)
| Throws (e : thrown).
Arguments Returns {A} a.
Arguments Throws {A} e.

Definition type_error (text : string) : thrown :=
  Uncaught (Rejection "TypeError" (Some text)).

(** The TypeError of a failed conversion to string. *)
Definition conversion_error (class : string) : thrown :=
  type_error
    (if String.eqb class "Symbol"
     then "TypeError: Cannot convert a Symbol value to a string"
     else "TypeError: Cannot convert object to primitive value").

(** [v.constructor.name]: the constructor is an own or inherited data
    property named [constructor] if there is one, else the function of the
    class; reading a property of undefined or null throws. *)
Definition constructor_name (v : value) : outcome value :=
  match v with
  | VUndefined =>
      Throws (type_error
        "TypeError: Cannot read properties of undefined (reading 'constructor')")
  | VNull =>
      Throws (type_error
        "TypeError: Cannot read properties of null (reading 'constructor')")
  | VBool _ => Returns (VString "Boolean")
  | VNumber _ => Returns (VString "Number")
  | VString _ => Returns (VString "String")
  | VDate _ => Returns (VString "Date")
  | VArray _ => Returns (VString "Array")
  | VObject c _ =>
      match lookup_property v "constructor" with
      | None => Returns (VString (class_name c))
      | Some VUndefined =>
          Throws (type_error
            "TypeError: Cannot read properties of undefined (reading 'name')")
      | Some VNull =>
          Throws (type_error "TypeError: Cannot read properties of null (reading 'name')")
      | Some constructor => Returns (get_property constructor "name")
      end
  end.

(** [try { return await body } catch (error) { throw handler(error) }] *)
Definition try_await {A : Type} (body : settled A) (handler : rejection -> thrown) : outcome A :=
  match body with
  | Resolved a => Returns a
  | Rejected r => Throws (handler r)
  end.

(** ** CustomSessionStorage (src/auth/session/storage/custom.ts) *)

Record CustomSessionStorage := {
  storeSessionCallback : value -> settled value;
  loadSessionCallback : string -> settled value;
  deleteSessionCallback : string -> settled value;
  deleteSessionsCallback : option (list string -> settled value);
  findSessionsByShopCallback : option (string -> settled value);
}.

(** [throw new ShopifyErrors.SessionStorageError(`<prefix>${error}`)]: the
    message is built first, and building it fails for an [error] that has
    no text. *)
Definition wrap_failure (prefix : string) (r : rejection) : thrown :=
  match rejection_text r with
  | Some text => SessionStorageError (prefix ++ text)
  | None => conversion_error (rejection_class r)
  end.


Definition load_failed (r : rejection) : thrown :=
  wrap_failure "CustomSessionStorage failed to load a session. Error Details: " r.


Definition delete_many_failed (r : rejection) : thrown :=
  wrap_failure "CustomSessionStorage failed to delete array of sessions. Error Details: " r.

Definition find_failed (r : rejection) : thrown :=
  wrap_failure "CustomSessionStorage failed to find sessions by shop. Error Details: " r.

Definition delete_many_warning : string :=
  "CustomSessionStorage failed to delete array of sessions. Error Details: deleteSessionsCallback not defined.".

Definition find_warning : string :=
  "CustomSessionStorage failed to find sessions by shop. Error Details: findSessionsByShopCallback not defined.".

Definition unexpected_shape (name : string) : thrown :=
  SessionStorageError
    ("Expected return to be instanceof Session, but received instanceof " ++ name ++ ".").



(** The two optional operations also write to the console: the result is
    the list of [console.warn] messages paired with the outcome. *)
Definition deleteSessions (this : CustomSessionStorage) (ids : list string)
  : list string * outcome value :=
  match deleteSessionsCallback this with
  | Some callback => ([], try_await (callback ids) delete_many_failed)
  | None => ([delete_many_warning], Returns (VBool false))
  end.

Definition findSessionsByShop (this : CustomSessionStorage) (shop : string)
  : list string * outcome (list value) :=
  match findSessionsByShopCallback this with
  | Some callback =>
      match callback shop with
      | Rejected r => ([], Throws (find_failed r))
      | Resolved results =>
          if truthy results && instanceof_Array results then
            match results with
            | VArray elems =>
                ([], Returns (fold_left (fun sessions element => sessions ++ [element])
                                        elems []))
            | _ => ([], Returns [])
            end
          else ([], Returns [])
      end
  | None => ([find_warning], Returns [])
  end.

Section LoadSession.

(** The own properties of [new Session(id, shop, state, isOnline)]; the
    class is imported from '../session'. *)
Variable Session_new : value -> value -> value -> value -> gmap string value.

(** The time value of [new Date(text)]. *)
Variable Date_parse : string -> option Z.

(** The text a template literal renders for a number, a date, an array or
    an object, which the engine and the classes decide; [None] when the
    conversion throws a TypeError. *)
Variable ToString_rest : value -> option string.

(** [`${v}`] *)
Definition template_text (v : value) : option string :=
  match v with
  | VUndefined => Some "undefined"
  | VNull => Some "null"
  | VBool true => Some "true"
  | VBool false => Some "false"
  | VString s => Some s
  | VNumber _ | VDate _ | VArray _ | VObject _ _ => ToString_rest v
  end.

(** [if (s.expires && typeof s.expires === 'string') s.expires = new Date(s.expires)] *)
Definition coerce_expires (s : value) : value :=
  if truthy (get_property s "expires")
     && String.eqb (typeof (get_property s "expires")) "string" then
    match get_property s "expires" with
    | VString text => set_property s "expires" (VDate (Date_parse text))
    | _ => s
    end
  else s.

Definition loadSession (this : CustomSessionStorage) (id : string) : outcome value :=
  match loadSessionCallback this id with
  | Rejected r => Throws (load_failed r)
  | Resolved result =>
      if truthy result then
        if instanceof_Session result then
          Returns (coerce_expires result)
        else if instanceof_Object result && has_property "id" result then
          let session :=
            VObject ClsSession
              (Session_new (get_property result "id") (get_property result "shop")
                           (get_property result "state") (get_property result "isOnline")) in
          let session := spread session result in
          Returns (coerce_expires session)
        else
          match constructor_name result with
          | Throws e => Throws e
          | Returns name =>
              match template_text name with
              | Some text => Throws (unexpected_shape text)
              | None => Throws (conversion_error "Object")
              end
          end
      else Returns VUndefined
  end.

End LoadSession.

(** ** Signing helpers of the test utilities *)

(** [crypto.createHmac('sha256', secretKey).update(body, 'utf8').digest(digest)] *)
Inductive BinaryToTextEncoding := base64 | hex.

Definition createTestHmac (secretKey body : string) (digest : BinaryToTextEncoding) : string :=
  let mac := hmac_sha256 (bytes_of_string secretKey) (bytes_of_string body) in
  match digest with
  | base64 => base64_encode mac
  | hex => hex_encode mac
  end.

Definition TEST_SHOP : string := "test-shop.myshopify.io".
Definition TEST_WEBHOOK_ID : string := "1234567890".

Section WebhookHeaders.

(** Exported by the API library. *)
Variable LATEST_API_VERSION : string.

Definition validWebhookHeaders (topic body secretKey : string) : gmap string string :=
  let hmac := createTestHmac secretKey body base64 in
  <["X-Shopify-Topic" := topic]>
    (<["X-Shopify-Shop-Domain" := TEST_SHOP]>
       (<["X-Shopify-Hmac-Sha256" := hmac]>
          (<["X-Shopify-Webhook-Id" := TEST_WEBHOOK_ID]>
             (<["X-Shopify-Api-Version" := LATEST_API_VERSION]> ∅)))).

End WebhookHeaders.

(** *** URLSearchParams

    [toString()] is the application/x-www-form-urlencoded serialiser: ASCII
    letters and digits and [* - . _] stay, a space becomes [+], every other
    byte becomes [%XX] in upper-case hexadecimal. *)

Definition form_unreserved (b : Z) : bool :=
  ((48 <=? b) && (b <=? 57)) || ((65 <=? b) && (b <=? 90)) || ((97 <=? b) && (b <=? 122))
  || (b =? 42) || (b =? 45) || (b =? 46) || (b =? 95).

Definition upper_hex_digit (n : Z) : ascii :=
  ascii_of_byte (if n <? 10 then 48 + n else 55 + n).

Fixpoint form_encode (s : string) : string :=
  match s with
  | EmptyString => EmptyString
  | String c rest =>
      let b := byte_of_ascii c in
      if form_unreserved b then String c (form_encode rest)
      else if b =? 32 then String "+" (form_encode rest)
      else String "%" (String (upper_hex_digit (b / 16))
                         (String (upper_hex_digit (b mod 16)) (form_encode rest)))
  end.

Definition URLSearchParams := list (string * string).

Definition append (args : URLSearchParams) (name val : string) : URLSearchParams :=
  args ++ [(name, val)].

Fixpoint join (sep : string) (parts : list string) : string :=
  match parts with
  | [] => EmptyString
  | [p] => p
  | p :: rest => p +:+ sep +:+ join sep rest
  end.

Definition toString (args : URLSearchParams) : string :=
  join "&" (map (fun kv => form_encode (fst kv) +:+ "=" +:+ form_encode (snd kv)) args).

(** *** queryArgs

    The query object is the list of its entries in [Object.keys] order, with
    pairwise distinct keys. *)

Definition query_has (key : string) (query : list (string * string)) : bool :=
  existsb (fun kv => String.eqb (fst kv) key) query.

(** [query[key]], rendered as [append] renders it. *)
Fixpoint query_get (query : list (string * string)) (key : string) : string :=
  match query with
  | [] => "undefined"
  | (k, v) :: rest => if String.eqb k key then v else query_get rest key
  end.

Section QueryArgs.

(** [val1.localeCompare(val2)]: negative, zero or positive, by the collation
    of the runtime's locale. *)
Variable localeCompare : string -> string -> Z.

(** [Date.now()], in milliseconds. *)
Variable now : Z.

(** [shopify.api.config.apiSecretKey] *)
Variable apiSecretKey : string.

(** [Array.prototype.sort(compare)], which is stable: an element goes in
    front of the first one it compares below. *)
Fixpoint sort_insert (x : string) (sorted : list string) : list string :=
  match sorted with
  | [] => [x]
  | y :: rest =>
      if localeCompare x y <? 0 then x :: sorted else y :: sort_insert x rest
  end.

Definition sort (keys : list string) : list string :=
  fold_left (fun sorted key => sort_insert key sorted) keys [].

(** The query after [if (!('timestamp' in query)) query.timestamp = ...]. *)
Definition with_timestamp (query : list (string * string)) : list (string * string) :=
  if negb (query_has "timestamp" query)
  then query ++ [("timestamp", pretty.pretty (now / 1000))]
  else query.

(** The parameters appended by the [forEach], before the signature. *)
Definition sorted_args (query : list (string * string)) : URLSearchParams :=
  let query := with_timestamp query in
  fold_left (fun args key => append args key (query_get query key))
            (sort (map fst query)) [].

(** The signature: [createTestHmac(apiSecretKey, args.toString(), 'hex')]. *)
Definition queryArgs_hmac (query : list (string * string)) : string :=
  createTestHmac apiSecretKey (toString (sorted_args query)) hex.

Definition queryArgs (query : list (string * string)) : string :=
  let args := sorted_args query in
  let args := append args "hmac" (queryArgs_hmac query) in
  toString args.

End QueryArgs.

(** *** The signed string as the specification words it

    Keys in byte order, pairs joined without any encoding. *)

Definition ordinal_compare (a b : string) : Z :=
  match String.compare a b with
  | Lt => -1
  | Eq => 0
  | Gt => 1
  end.

Definition canonical_query_string (now : Z) (query : list (string * string)) : string :=
  let query := with_timestamp now query in
  join "&" (map (fun key => key +:+ "=" +:+ query_get query key)
                (sort ordinal_compare (map fst query))).

(** ** triggerAfterAuthHook *)

Section AfterAuth.

(** What the dispatcher only passes along: the request, the admin API
    context, the redirect function, the client-error handler, and the
    remaining fields of the configuration. *)
Variables (Request AdminApiContext RedirectFunction ClientErrorHandler AppSettings : Type).

Record AfterAuthOptions := {
  session : value;
  admin : AdminApiContext;
  redirect : RedirectFunction;
}.

Record Hooks := { afterAuth : option (AfterAuthOptions -> settled unit) }.

Record Config := {
  hooks : Hooks;
  isEmbeddedApp : bool;
  settings : AppSettings;
}.

Inductive event :=
| LoggerInfo (message : string)
| HookInvoked (options : AfterAuthOptions).

Record BasicParams := { config : Config }.

Record AuthorizationStrategy := { handleClientError : Request -> ClientErrorHandler }.

Variable createAdminApiContext : value -> BasicParams -> ClientErrorHandler -> AdminApiContext.
Variable redirectFactory : BasicParams -> Request -> RedirectFunction.
Variable remixRedirect : RedirectFunction.

(** The events are the calls made, in order: [logger.info] and the hook. *)
Definition triggerAfterAuthHook (params : BasicParams) (session : value)
    (request : Request) (authStrategy : AuthorizationStrategy)
  : list event * outcome unit :=
  match afterAuth (hooks (config params)) with
  | Some hook =>
      let options :=
        {| session := session;
           admin := createAdminApiContext session params (handleClientError authStrategy request);
           redirect :=
             if isEmbeddedApp (config params)
             then redirectFactory params request
             else remixRedirect |} in
      ([LoggerInfo "Running afterAuth hook"; HookInvoked options],
       match hook options with
       | Resolved _ => Returns tt
       | Rejected r => Throws (Uncaught r)
       end)
  | None => ([], Returns tt)
  end.

Definition hook_calls (events : list event) : list AfterAuthOptions :=
  flat_map (fun e => match e with HookInvoked o => [o] | LoggerInfo _ => [] end) events.

End AfterAuth.

(** ** The request matcher of the test utilities ([toMatchMadeHttpRequest])

    [currentCall] is the module's counter, [calls] the list
    [fetchMock.mock.calls] of pairs of a request input and its init. *)

Record MatcherResult := { pass : bool; message : string }.

(** The argument of the matcher; a property that is not given is undefined. *)
Record AssertHttpRequestParams := {
  method : value;
  url : value;
  headers : value;
  body : value;
}.

(** [expect.arrayContaining([])], [expect.objectContaining({})]: asymmetric
    matchers, seen through their class. *)
Definition arrayContaining_empty : value := VObject (ClsOther "ArrayContaining" ∅) ∅.
Definition objectContaining_empty : value := VObject (ClsOther "ObjectContaining" ∅) ∅.

(** A destructuring default applies to undefined only. *)
Definition with_default (v fallback : value) : value :=
  match v with
  | VUndefined => fallback
  | _ => v
  end.

Definition and_then {A B : Type} (o : outcome A) (k : A -> outcome B) : outcome B :=
  match o with
  | Returns a => k a
  | Throws e => Throws e
  end.

Section Matcher.

(** jest's comparisons, and the error a failed expectation throws. *)
Variable toEqual : value -> value -> bool.
Variable toMatchObject : value -> value -> bool.
Variable mismatch : string -> value -> value -> rejection.

(** [new URL(input)], which throws on an invalid input, and [JSON.parse],
    [None] when it throws. *)
Variable URL_new : value -> outcome value.
Variable JSON_parse : string -> option value.

Definition expect_toEqual (received expected : value) : outcome unit :=
  if toEqual received expected then Returns tt
  else Throws (Uncaught (mismatch "toEqual" received expected)).

Definition expect_toMatchObject (received expected : value) : outcome unit :=
  if toMatchObject received expected then Returns tt
  else Throws (Uncaught (mismatch "toMatchObject" received expected)).

Definition expect_toBeFalsy (received : value) : outcome unit :=
  if truthy received then Throws (Uncaught (mismatch "toBeFalsy" received VUndefined))
  else Returns tt.

(** [mockCall[1]!.body] *)
Definition read_body (init : value) : outcome value :=
  match init with
  | VUndefined | VNull =>
      Throws (type_error "TypeError: Cannot read properties of undefined (reading 'body')")
  | _ => Returns (get_property init "body")
  end.

(** The [if (body) ... else ...] block. *)
Definition check_body (expected mockBody : value) : outcome unit :=
  if truthy expected then
    and_then
      (if String.eqb (typeof expected) "string" then Returns true
       else and_then (constructor_name expected) (fun name =>
              Returns (match name with
                       | VString text => String.eqb text "StringContaining"
                       | _ => false
                       end)))
      (fun verbatim : bool =>
         if verbatim then expect_toEqual mockBody expected
         else
           let requestBody :=
             match mockBody with
             | VString text =>
                 match JSON_parse text with
                 | Some parsed => parsed
                 | None => mockBody
                 end
             | _ => mockBody
             end in
           if String.eqb (typeof requestBody) "string"
           then expect_toEqual requestBody expected
           else expect_toMatchObject requestBody expected)
  else expect_toBeFalsy mockBody.

(** The result is the new value of [currentCall] and what the matcher
    returns or throws. *)
Definition toMatchMadeHttpRequest (calls : list (value * value)) (currentCall : nat)
    (params : AssertHttpRequestParams) : nat * outcome MatcherResult :=
  let headers := with_default (headers params) arrayContaining_empty in
  let body := with_default (body params) objectContaining_empty in
  let index := currentCall in
  (S currentCall,
   match calls !! index with
   | None =>
       Returns {| pass := false;
                  message := "Expected a request to be made but none were" |}
   | Some mockCall =>
       and_then (if String.eqb (typeof (url params)) "string"
                 then URL_new (url params) else Returns (url params))
         (fun expectedUrl =>
       and_then (URL_new (fst mockCall)) (fun requestUrl =>
       and_then (read_body (snd mockCall)) (fun mockBody =>
       and_then (check_body body mockBody) (fun _ =>
       and_then (expect_toEqual requestUrl expectedUrl) (fun _ =>
       and_then (expect_toMatchObject (snd mockCall)
                   (VObject ClsObject
                      (<["method" := method params]> (<["headers" := headers]> ∅))))
         (fun _ =>
       Returns {| pass := true;
                  message := "The expected HTTP requests have been seen" |}))))))
   end).

End Matcher.

(** ** Concrete instances used in the examples *)

(** Modelled from the spec: the Session class of '../session', which is not
    among the sources.  Its constructor takes the four mandatory attributes
    id, shop, state and isOnline; the optional ones stay unset. *)
Definition Session_constructor (id shop state isOnline : value) : gmap string value :=
  <["id" := id]> (<["shop" := shop]> (<["state" := state]> (<["isOnline" := isOnline]> ∅))).

(** A date parser for the examples: it reads the one form
    [YYYY-MM-DDTHH:mm:ssZ], a day past the end of its month running over
    into the next one, and answers Invalid Date to every other text,
    although an engine reads more forms.  The theorems hold for every
    parser. *)
Definition digit_value (c : ascii) : option Z :=
  let b := byte_of_ascii c in
  if (48 <=? b) && (b <=? 57) then Some (b - 48) else None.

Fixpoint digits_value (cs : list ascii) (acc : Z) : option Z :=
  match cs with
  | [] => Some acc
  | c :: rest =>
      match digit_value c with
      | Some d => digits_value rest (10 * acc + d)
      | None => None
      end
  end.

(** Days from 1970-01-01 to the given civil date. *)
Definition days_from_civil (y m d : Z) : Z :=
  let y' := if m <=? 2 then y - 1 else y in
  let era := y' / 400 in
  let yoe := y' - era * 400 in
  let doy := (153 * (if 2 <? m then m - 3 else m + 9) + 2) / 5 + d - 1 in
  let doe := yoe * 365 + yoe / 4 - yoe / 100 + doy in
  era * 146097 + doe - 719468.

Definition Date_parse_iso (text : string) : option Z :=
  match list_ascii_of_string text with
  | [y1; y2; y3; y4; "-"; m1; m2; "-"; d1; d2; "T"; h1; h2; ":"; n1; n2; ":"; s1; s2; "Z"]%char =>
      match digits_value [y1; y2; y3; y4] 0, digits_value [m1; m2] 0, digits_value [d1; d2] 0,
            digits_value [h1; h2] 0, digits_value [n1; n2] 0, digits_value [s1; s2] 0 with
      | Some y, Some m, Some d, Some h, Some n, Some s =>
          if (1 <=? m) && (m <=? 12) && (1 <=? d) && (d <=? 31)
             && (h <=? 23) && (n <=? 59) && (s <=? 59)
          then Some ((((days_from_civil y m d * 24 + h) * 60 + n) * 60 + s) * 1000)
          else None
      | _, _, _, _, _, _ => None
      end
  | _ => None
  end.

(** ** What the normalisation of [expires] amounts to

    [before] and [after] are the properties of a session before and after
    [coerce_expires]: a non-empty text has become the Date parsed from it,
    anything else (no value, a Date, a number, the empty text) is as it was. *)
Definition expires_coerced (Date_parse : string -> option Z)
    (before after : gmap string value) : Prop :=
  match before !! "expires" with
  | Some (VString text) =>
      after !! "expires" =
        Some (if String.eqb text "" then VString "" else VDate (Date_parse text))
  | other => after !! "expires" = other
  end.

(** A storage whose load callback answers every id with [result]. *)
Definition storage_loading (result : settled value) : CustomSessionStorage :=
  {| storeSessionCallback := fun _ => Resolved (VBool true);
     loadSessionCallback := fun _ => result;
     deleteSessionCallback := fun _ => Resolved (VBool true);
     deleteSessionsCallback := None;
     findSessionsByShopCallback := None |}.


(** A storage whose find callback answers every shop with [result]. *)
Definition storage_finding (result : settled value) : CustomSessionStorage :=
  {| storeSessionCallback := fun _ => Resolved (VBool true);
     loadSessionCallback := fun _ => Resolved VUndefined;
     deleteSessionCallback := fun _ => Resolved (VBool true);
     deleteSessionsCallback := None;
     findSessionsByShopCallback := Some (fun _ => result) |}.

(** The record of the specification's example, and one whose [expires] is
    the empty text. *)
Definition example_record : gmap string value :=
  <["id" := VString "x"]>
    (<["shop" := VString "s.myshopify.io"]>
       (<["state" := VString "st"]>
          (<["isOnline" := VBool false]>
             (<["expires" := VString "2024-01-01T00:00:00Z"]> ∅)))).

Definition record_with_empty_expires : gmap string value :=
  <["id" := VString "x"]> (<["expires" := VString ""]> ∅).

(** What loadSession returns for [record_with_empty_expires]. *)
Definition session_with_empty_expires : value :=
  VObject ClsObject
    (<["expires" := VString ""]>
       (Session_constructor (VString "x") VUndefined VUndefined VUndefined)).

(** An exception for the examples. *)
Definition boom : rejection := Rejection "RangeError" (Some "RangeError: boom").


(** A renderer for the examples, none of which converts a number, a date,
    an array or an object to text: it answers for none of them.  The
    theorems hold for every renderer. *)
Definition no_text (v : value) : option string := None.


Definition instance_with_inherited_id : value :=
  VObject (ClsOther "Row" (<["id" := VString "x"]> ∅))
          (<["shop" := VString "s.myshopify.io"]> ∅).

(** ** Vocabulary of the statements *)

Definition is_byte (b : Z) : Prop := 0 <= b < 256.

Definition lower_hex_digit (c : ascii) : bool :=
  let b := byte_of_ascii c in
  ((48 <=? b) && (b <=? 57)) || ((97 <=? b) && (b <=? 102)).

Fixpoint all_chars (p : ascii -> bool) (s : string) : bool :=
  match s with
  | EmptyString => true
  | String c rest => p c && all_chars p rest
  end.

(** A text the URL serialiser leaves as it is. *)
Definition plain_text (s : string) : bool :=
  all_chars (fun c => form_unreserved (byte_of_ascii c)) s.

(** [a] may stand before [b]: [b] does not compare below [a]. *)
Definition in_order (compare : string -> string -> Z) (a b : string) : Prop :=
  ~ compare b a < 0.

(** A query whose one value holds a space, and a configuration for the
    hook examples: text stands for the admin context and for the redirect
    functions, and the hook fails with [boom]. *)
Definition query_with_space : list (string * string) := [("timestamp", "a b")].

Definition failing_hook_params (embedded : bool) : BasicParams string string unit :=
  {| config :=
       {| hooks := {| afterAuth := Some (fun _ => Rejected boom) |};
          isEmbeddedApp := embedded;
          settings := tt |} |}.

Definition example_strategy : AuthorizationStrategy unit unit :=
  {| handleClientError := fun _ => tt |}.

(** A character of the base64 alphabet, padding included. *)
Definition base64_char (c : ascii) : bool :=
  let b := byte_of_ascii c in
  ((65 <=? b) && (b <=? 90)) || ((97 <=? b) && (b <=? 122)) || ((48 <=? b) && (b <=? 57))
  || (b =? 43) || (b =? 47) || (b =? 61).

(** How often a character occurs in a text. *)
Fixpoint count_char (c : ascii) (s : string) : nat :=
  match s with
  | EmptyString => O
  | String d rest => ((if Ascii.eqb c d then 1 else 0) + count_char c rest)%nat
  end.

(** A comparator that orders the texts of [keys] strictly and totally;
    nothing is asked of it on other texts. *)
Definition strict_total_order_on (keys : list string) (compare : string -> string -> Z)
  : Prop :=
  (forall a b, In a keys -> In b keys -> compare a b < 0 -> ~ compare b a < 0)
  /\ (forall a b c, In a keys -> In b keys -> In c keys ->
        compare a b < 0 -> compare b c < 0 -> compare a c < 0)
  /\ (forall a b, In a keys -> In b keys -> a <> b -> compare a b < 0 \/ compare b a < 0).

(** A comparator that ignores the case of the letters A to Z: it gives 0
    for two texts that differ in case only, so it does not order all texts
    strictly. *)
Definition fold_case (c : ascii) : ascii :=
  let b := byte_of_ascii c in
  if (65 <=? b) && (b <=? 90) then ascii_of_byte (b + 32) else c.

Fixpoint fold_case_text (s : string) : string :=
  match s with
  | EmptyString => EmptyString
  | String c rest => String (fold_case c) (fold_case_text rest)
  end.

Definition caseless_compare (a b : string) : Z :=
  ordinal_compare (fold_case_text a) (fold_case_text b).

(** Comparisons for the matcher examples: URLs are seen through their text,
    [toEqual] compares two texts, and [toMatchObject] accepts every object;
    [JSON.parse] reads the one text [{}]. *)
Definition same_text (received expected : value) : bool :=
  match received, expected with
  | VString a, VString b => String.eqb a b
  | _, _ => false
  end.

Definition any_object (received expected : value) : bool := instanceof_Object received.

Definition parse_empty_object (text : string) : option value :=
  if String.eqb text "{}" then Some (VObject ClsObject ∅) else None.

Definition get_request : AssertHttpRequestParams :=
  {| method := VString "GET"; url := VString "https://a.myshopify.io/x";
     headers := VUndefined; body := VUndefined |}.

Definition one_call : list (value * value) :=
  [(VString "https://a.myshopify.io/x",
    VObject ClsObject (<["method" := VString "GET"]> (<["body" := VString "{}"]> ∅)))].

(** What loadSession returns for [example_record]. *)
Definition session_of_example_record : value :=
  VObject ClsObject
    (<["expires" := VDate (Some 1704067200000)]>
       (example_record ∪
        Session_constructor (VString "x") (VString "s.myshopify.io") (VString "st")
                            (VBool false))).

(** * Properties *)

(** ** The hash against published values

    The first and last round constants, the digests of the empty message
    and of [abc] (FIPS 180-4), and the second test case of RFC 4231. *)

Lemma sha256_constants :
  nth 0 SHA256.K 0 = 0x428a2f98 /\ nth 63 SHA256.K 0 = 0xc67178f2
  /\ length SHA256.K = 64%nat
  /\ nth 0 SHA256.H_init 0 = 0x6a09e667 /\ nth 7 SHA256.H_init 0 = 0x5be0cd19.
Proof.
  repeat split; reflexivity.
Qed.

Lemma sha256_known_answers :
  hex_encode (SHA256.digest (bytes_of_string "")) =
    "e3b0c44298fc1c149afbf4c8996fb92427ae41e4649b934ca495991b7852b855"
  /\ hex_encode (SHA256.digest (bytes_of_string "abc")) =
    "ba7816bf8f01cfea414140de5dae2223b00361a396177a9cb410ff61f20015ad".
Proof.
  split; vm_compute; reflexivity.
Qed.

Lemma hmac_sha256_known_answer :
  hex_encode (hmac_sha256 (bytes_of_string "Jefe")
                (bytes_of_string "what do ya want for nothing?")) =
    "5bdcc146bf60754e6a042426089575c75a003f089d2739839dec58b964ec3843".
Proof.
  vm_compute. reflexivity.
Qed.

(** ** Helper lemmas *)

Lemma push_all_is_identity {A : Type} (elems acc : list A) :
  fold_left (fun sessions element => sessions ++ [element]) elems acc = acc ++ elems.
Proof.
  revert acc. induction elems as [|x elems IH]; intros acc; simpl.
  - now rewrite app_nil_r.
  - rewrite IH, <- app_assoc. reflexivity.
Qed.

Lemma falsy_values (v : value) :
  truthy v = false <->
  v = VUndefined \/ v = VNull \/ v = VBool false \/ (exists sign, v = VNumber (S754_zero sign))
  \/ v = VNumber S754_nan \/ v = VString "".
Proof.
  split.
  - destruct v as [| |b|x|s| | |]; simpl; intros H; try discriminate; auto.
    + destruct b; [discriminate|auto].
    + destruct x; try discriminate; eauto 7.
    + destruct s; [auto 7|discriminate].
  - intros [->|[->|[->|[[sign ->]|[->| ->]]]]]; reflexivity.
Qed.

(** ** Storage adapter *)





(** An instance whose class provides the [id] is normalised like a record
    with an [id] of its own. *)
Lemma loadSession_inherited_id :
  has_property "id" instance_with_inherited_id = true
  /\ loadSession Session_constructor Date_parse_iso no_text
       (storage_loading (Resolved instance_with_inherited_id)) "x" =
       Returns (VObject ClsObject
         (<["shop" := VString "s.myshopify.io"]>
            (Session_constructor (VString "x") (VString "s.myshopify.io")
                                 VUndefined VUndefined))).
Proof.
  split; [reflexivity|]. vm_compute. reflexivity.
Qed.

(** C5: when the find callback returns an array, findSessionsByShop returns
    exactly its elements, in order and as they are: nothing is extracted,
    no expires text is parsed, no shape is checked. *)
Theorem findSessionsByShop_returns_elements_unchanged
    (this : CustomSessionStorage) (callback : string -> settled value)
    (shop : string) (elems : list value) :
  findSessionsByShopCallback this = Some callback ->
  callback shop = Resolved (VArray elems) ->
  findSessionsByShop this shop = ([], Returns elems).
Proof.
  intros Hcb Hres. unfold findSessionsByShop. rewrite Hcb, Hres. simpl.
  now rewrite push_all_is_identity.
Qed.

(** C6: findSessionsByShop without a callback warns and returns the empty
    sequence; with a callback that returns something that is not an array
    it returns the empty sequence; and it always returns a sequence, unless
    the callback fails, when it throws what the catch block builds. *)
Theorem findSessionsByShop_empty_sequence_fallback
    (this : CustomSessionStorage) (shop : string) :
  (findSessionsByShopCallback this = None ->
     findSessionsByShop this shop = ([find_warning], Returns []))
  /\ (forall callback v, findSessionsByShopCallback this = Some callback ->
        callback shop = Resolved v -> instanceof_Array v = false ->
        findSessionsByShop this shop = ([], Returns []))
  /\ ((exists sessions : list value, snd (findSessionsByShop this shop) = Returns sessions)
      \/ (exists callback r, findSessionsByShopCallback this = Some callback
            /\ callback shop = Rejected r
            /\ snd (findSessionsByShop this shop) = Throws (find_failed r))).
Proof.
  unfold findSessionsByShop. repeat split.
  - intros ->. reflexivity.
  - intros callback v -> -> Harr. rewrite Harr, andb_false_r. reflexivity.
  - destruct (findSessionsByShopCallback this) as [callback|]; [|left; eauto].
    destruct (callback shop) as [results|r] eqn:Hshop; [|right; simpl; eauto].
    left. destruct (truthy results && instanceof_Array results); [|eauto].
    destruct results; eauto.
Qed.

(** C7: deleteSessions without a bulk callback returns false and does not
    throw, whatever the ids; it reports the gap with one console warning. *)
Theorem deleteSessions_without_callback
    (this : CustomSessionStorage) (ids : list string) :
  deleteSessionsCallback this = None ->
  deleteSessions this ids = ([delete_many_warning], Returns (VBool false)).
Proof.
  intros H. unfold deleteSessions. now rewrite H.
Qed.

(** C10: every falsy value from the load callback (undefined, null, false,
    0, -0, NaN, the empty string) makes loadSession return undefined
    without an error, and the unexpected-shape error is thrown for truthy
    values only. *)
Theorem loadSession_falsy_is_not_found
    (Session_new : value -> value -> value -> value -> gmap string value)
    (Date_parse : string -> option Z)
    (ToString_rest : value -> option string)
    (this : CustomSessionStorage) (id : string) (v : value) :
  loadSessionCallback this id = Resolved v ->
  (truthy v = false -> loadSession Session_new Date_parse ToString_rest this id = Returns VUndefined)
  /\ (forall e, loadSession Session_new Date_parse ToString_rest this id = Throws e -> truthy v = true)
  /\ Forall (fun falsy => truthy falsy = false)
       [VUndefined; VNull; VBool false; VNumber (S754_zero false);
        VNumber (S754_zero true); VString ""; VNumber S754_nan].
Proof.
  intros Hcb. unfold loadSession. rewrite Hcb. repeat split.
  - intros ->. reflexivity.
  - intros e. destruct (truthy v); [reflexivity|discriminate].
  - repeat constructor.
Qed.

Lemma get_own_property (cls : js_class) (props : gmap string value) (key : string) :
  inherited_props cls = ∅ ->
  get_property (VObject cls props) key = default VUndefined (props !! key).
Proof.
  intros Hinherited. unfold get_property, lookup_property.
  rewrite Hinherited, lookup_empty. now destruct (props !! key).
Qed.

Lemma coerce_expires_object (Date_parse : string -> option Z)
    (cls : js_class) (props : gmap string value) :
  inherited_props cls = ∅ ->
  exists fields,
    coerce_expires Date_parse (VObject cls props) = VObject cls fields
    /\ (forall key, key <> "expires" -> fields !! key = props !! key)
    /\ expires_coerced Date_parse props fields.
Proof.
  intros Hinherited. unfold coerce_expires, expires_coerced.
  rewrite (get_own_property cls props "expires" Hinherited).
  destruct (props !! "expires") as [v|] eqn:Hexp; simpl.
  - destruct v as [| |b|x|text| | |]; simpl;
      try (exists props; rewrite ?andb_false_r; repeat split; auto; fail).
    destruct (String.eqb text "") eqn:Hempty; simpl.
    + apply String.eqb_eq in Hempty. subst text.
      exists props. repeat split; auto.
    + exists (<["expires" := VDate (Date_parse text)]> props). repeat split.
      * intros key Hkey. now rewrite lookup_insert_ne.
      * now rewrite lookup_insert_eq.
  - exists props. repeat split; auto.
Qed.

(** C1 (amended): a plain record with an [id] returned by the load callback
    comes back as a plain object holding the properties of
    [new Session(id, shop, state, isOnline)] overlaid by every property of
    the record; a Session instance comes back with its own properties.  In
    both cases an [expires] that is a non-empty text is replaced by the
    Date parsed from it, while an empty text (like any non-text value) is
    returned as it is. *)
Theorem loadSession_normalises
    (Session_new : value -> value -> value -> value -> gmap string value)
    (Date_parse : string -> option Z)
    (ToString_rest : value -> option string)
    (this : CustomSessionStorage) (id : string)
    (cls : js_class) (props : gmap string value) :
  loadSessionCallback this id = Resolved (VObject cls props) ->
  (cls <> ClsSession -> is_Some (props !! "id") ->
     let record := VObject cls props in
     let canonical :=
       Session_new (get_property record "id") (get_property record "shop")
                   (get_property record "state") (get_property record "isOnline") in
     exists fields,
       loadSession Session_new Date_parse ToString_rest this id = Returns (VObject ClsObject fields)
       /\ (forall key v, key <> "expires" -> props !! key = Some v -> fields !! key = Some v)
       /\ (forall key, key <> "expires" -> props !! key = None ->
             fields !! key = canonical !! key)
       /\ expires_coerced Date_parse (props ∪ canonical) fields)
  /\ (cls = ClsSession ->
     exists fields,
       loadSession Session_new Date_parse ToString_rest this id = Returns (VObject ClsSession fields)
       /\ (forall key, key <> "expires" -> fields !! key = props !! key)
       /\ expires_coerced Date_parse props fields).
Proof.
  intros Hcb. unfold loadSession. rewrite Hcb. split.
  - intros Hcls Hid.
    set (canonical := Session_new _ _ _ _).
    assert (instanceof_Session (VObject cls props) = false) as ->
      by (destruct cls; [reflexivity|congruence|reflexivity]).
    assert (has_property "id" (VObject cls props) = true) as ->.
    { unfold has_property, lookup_property. apply bool_decide_eq_true_2.
      destruct Hid as [x ->]. now exists x. }
    simpl.
    destruct (coerce_expires_object Date_parse ClsObject (props ∪ canonical) eq_refl)
      as (fields & Heq & Hother & Hexp).
    exists fields. unfold spread. simpl.
    rewrite Heq. repeat split.
    + intros key v Hkey Hlook. rewrite (Hother key Hkey).
      now apply lookup_union_Some_l.
    + intros key Hkey Hlook. rewrite (Hother key Hkey).
      now rewrite lookup_union_r.
    + exact Hexp.
  - intros ->. simpl.
    destruct (coerce_expires_object Date_parse ClsSession props eq_refl)
      as (fields & Heq & Hother & Hexp).
    exists fields. rewrite Heq. auto.
Qed.

(** The record of the specification's example normalises to a session whose
    [expires] is the Date 2024-01-01T00:00:00Z and whose id, shop, state
    and isOnline are those of the record. *)
Lemma loadSession_normalises_example :
  exists fields,
    loadSession Session_constructor Date_parse_iso no_text
      (storage_loading (Resolved (VObject ClsObject example_record))) "x"
      = Returns (VObject ClsObject fields)
    /\ fields !! "expires" = Some (VDate (Some 1704067200000))
    /\ fields !! "id" = Some (VString "x")
    /\ fields !! "shop" = Some (VString "s.myshopify.io")
    /\ fields !! "state" = Some (VString "st")
    /\ fields !! "isOnline" = Some (VBool false).
Proof.
  destruct (loadSession_normalises Session_constructor Date_parse_iso no_text
              (storage_loading (Resolved (VObject ClsObject example_record))) "x"
              ClsObject example_record eq_refl) as [Hrecord _].
  destruct Hrecord as (fields & Heq & Hraw & _ & Hexp).
  - discriminate.
  - exists (VString "x"). reflexivity.
  - exists fields. split; [exact Heq|]. split.
    + vm_compute in Hexp. exact Hexp.
    + repeat split; apply Hraw; (discriminate || reflexivity).
Defined.

(** A record whose [expires] is the empty text comes back with [expires]
    still a text: the guard [session.expires && ...] skips it. *)
Lemma loadSession_keeps_empty_expires_text :
  loadSession Session_constructor Date_parse_iso no_text
    (storage_loading (Resolved (VObject ClsObject record_with_empty_expires))) "x"
    = Returns session_with_empty_expires
  /\ typeof (get_property session_with_empty_expires "expires") = "string".
Proof.
  split; reflexivity.
Qed.

(** The same holds for a Session instance. *)
Lemma loadSession_keeps_empty_expires_text_of_Session :
  loadSession Session_constructor Date_parse_iso no_text
    (storage_loading (Resolved (VObject ClsSession record_with_empty_expires))) "x"
    = Returns (VObject ClsSession record_with_empty_expires).
Proof.
  reflexivity.
Qed.

(** ** Witnesses of the storage properties *)



Lemma findSessionsByShop_raw_example :
  findSessionsByShop
    (storage_finding (Resolved (VArray [VObject ClsObject example_record; VString "junk"])))
    "s.myshopify.io"
  = ([], Returns [VObject ClsObject example_record; VString "junk"]).
Proof.
  apply (findSessionsByShop_returns_elements_unchanged
           (storage_finding (Resolved (VArray [VObject ClsObject example_record; VString "junk"])))
           (fun _ => Resolved (VArray [VObject ClsObject example_record; VString "junk"])));
    reflexivity.
Defined.

Lemma findSessionsByShop_fallback_example :
  findSessionsByShop (storage_loading (Resolved VUndefined)) "s.myshopify.io"
    = ([find_warning], Returns [])
  /\ findSessionsByShop (storage_finding (Resolved (VString "none"))) "s.myshopify.io"
    = ([], Returns []).
Proof.
  split.
  - apply (findSessionsByShop_empty_sequence_fallback
             (storage_loading (Resolved VUndefined)) "s.myshopify.io"). reflexivity.
  - eapply (findSessionsByShop_empty_sequence_fallback
              (storage_finding (Resolved (VString "none"))) "s.myshopify.io"); reflexivity.
Defined.

Lemma deleteSessions_without_callback_example :
  deleteSessions (storage_loading (Resolved VUndefined)) ["a"; "b"]
    = ([delete_many_warning], Returns (VBool false)).
Proof.
  apply (deleteSessions_without_callback (storage_loading (Resolved VUndefined)) ["a"; "b"]).
  reflexivity.
Defined.

Lemma loadSession_falsy_example :
  loadSession Session_constructor Date_parse_iso no_text
    (storage_loading (Resolved (VString ""))) "x" = Returns VUndefined.
Proof.
  apply (loadSession_falsy_is_not_found Session_constructor Date_parse_iso no_text
           (storage_loading (Resolved (VString ""))) "x" (VString "")); reflexivity.
Defined.

(** ** Webhook headers *)

(** C8: the header object holds [X-Shopify-Hmac-Sha256], the base64 text of
    the HMAC-SHA256 of the body's UTF-8 bytes keyed by the secret, together
    with the topic, shop-domain, webhook-id and API-version headers and
    nothing else; for the body [{}] and the secret [sekrit] the signature
    is the text below. *)
Theorem validWebhookHeaders_signature (LATEST_API_VERSION topic body secretKey : string) :
  let headers := validWebhookHeaders LATEST_API_VERSION topic body secretKey in
  headers !! "X-Shopify-Hmac-Sha256" =
    Some (base64_encode (hmac_sha256 (bytes_of_string secretKey) (bytes_of_string body)))
  /\ headers !! "X-Shopify-Topic" = Some topic
  /\ headers !! "X-Shopify-Shop-Domain" = Some "test-shop.myshopify.io"
  /\ headers !! "X-Shopify-Webhook-Id" = Some "1234567890"
  /\ headers !! "X-Shopify-Api-Version" = Some LATEST_API_VERSION
  /\ (forall name, is_Some (headers !! name) ->
        In name ["X-Shopify-Topic"; "X-Shopify-Shop-Domain"; "X-Shopify-Hmac-Sha256";
                 "X-Shopify-Webhook-Id"; "X-Shopify-Api-Version"])
  /\ validWebhookHeaders LATEST_API_VERSION topic "{}" "sekrit" !! "X-Shopify-Hmac-Sha256"
       = Some "sEucRZ3rf7ITUcNx6hFS/tntw+ZXCy3Yt51vbJ60WG0=".
Proof.
  unfold validWebhookHeaders, createTestHmac. cbv zeta.
  split; [now simplify_map_eq|].
  split; [now simplify_map_eq|].
  split; [now simplify_map_eq|].
  split; [now simplify_map_eq|].
  split; [now simplify_map_eq|].
  split.
  - intros name Hsome.
    rewrite !lookup_insert_is_Some, lookup_empty in Hsome. simpl.
    destruct Hsome as [<-|[_ [<-|[_ [<-|[_ [<-|[_ [<-|[_ [? ?]]]]]]]]]]];
      try tauto. discriminate.
  - rewrite lookup_insert_ne, lookup_insert_ne, lookup_insert_eq by discriminate.
    vm_compute. reflexivity.
Qed.

(** ** The afterAuth hook *)

(** C9: with no hook configured nothing is called; with a hook configured
    it is called exactly once, with the session, the admin context made
    for that session and the redirect function picked by [isEmbeddedApp],
    and whatever the hook throws reaches the caller as it is. *)
Theorem triggerAfterAuthHook_dispatch
    (Request AdminApiContext RedirectFunction ClientErrorHandler AppSettings : Type)
    (createAdminApiContext :
       value -> BasicParams AdminApiContext RedirectFunction AppSettings ->
       ClientErrorHandler -> AdminApiContext)
    (redirectFactory :
       BasicParams AdminApiContext RedirectFunction AppSettings -> Request -> RedirectFunction)
    (remixRedirect : RedirectFunction)
    (params : BasicParams AdminApiContext RedirectFunction AppSettings)
    (sess : value) (request : Request)
    (authStrategy : AuthorizationStrategy Request ClientErrorHandler) :
  let run :=
    triggerAfterAuthHook Request AdminApiContext RedirectFunction ClientErrorHandler
      AppSettings createAdminApiContext redirectFactory remixRedirect
      params sess request authStrategy in
  (afterAuth _ _ (hooks _ _ _ (config _ _ _ params)) = None ->
     hook_calls _ _ (fst run) = [] /\ snd run = Returns tt)
  /\ (forall hook, afterAuth _ _ (hooks _ _ _ (config _ _ _ params)) = Some hook ->
     exists options,
       hook_calls _ _ (fst run) = [options]
       /\ session _ _ options = sess
       /\ admin _ _ options =
            createAdminApiContext sess params (handleClientError _ _ authStrategy request)
       /\ redirect _ _ options =
            (if isEmbeddedApp _ _ _ (config _ _ _ params)
             then redirectFactory params request else remixRedirect)
       /\ (forall r, hook options = Rejected r -> snd run = Throws (Uncaught r))
       /\ (forall u, hook options = Resolved u -> snd run = Returns tt)).
Proof.
  unfold triggerAfterAuthHook. cbv zeta. split.
  - intros ->. split; reflexivity.
  - intros hook ->. eexists. split; [reflexivity|]. simpl.
    repeat split.
    + intros r ->. reflexivity.
    + intros u ->. reflexivity.
Qed.

(** ** Signed query strings *)

Lemma string_app_assoc (a b c : string) : (a +:+ b) +:+ c = a +:+ (b +:+ c).
Proof.
  induction a as [|ch a IH]; [reflexivity|].
  change (String ch ((a +:+ b) +:+ c) = String ch (a +:+ (b +:+ c))).
  now rewrite IH.
Qed.

Lemma join_snoc (sep : string) (parts : list string) (last : string) :
  parts <> [] -> join sep (parts ++ [last]) = join sep parts +:+ sep +:+ last.
Proof.
  induction parts as [|p parts IH]; [congruence|]. intros _.
  destruct parts as [|q parts]; [reflexivity|].
  change (join sep ((p :: q :: parts) ++ [last]))
    with (p +:+ sep +:+ join sep ((q :: parts) ++ [last])).
  rewrite IH by discriminate.
  change (join sep (p :: q :: parts)) with (p +:+ sep +:+ join sep (q :: parts)).
  now rewrite !string_app_assoc.
Qed.

Lemma toString_append (args : URLSearchParams) (name val : string) :
  args <> [] ->
  toString (append args name val) =
    toString args +:+ "&" +:+ form_encode name +:+ "=" +:+ form_encode val.
Proof.
  intros Hargs. unfold toString, append. rewrite map_app. simpl.
  apply join_snoc. destruct args; [congruence|discriminate].
Qed.

(** *** The signature is made of lower-case hexadecimal digits *)

Lemma digest_is_bytes (msg : list Z) : Forall is_byte (SHA256.digest msg).
Proof.
  unfold SHA256.digest. apply Forall_flat_map, Forall_forall. intros w _.
  repeat constructor; apply Z.mod_pos_bound; lia.
Qed.

Lemma hmac_sha256_is_bytes (key msg : list Z) : Forall is_byte (hmac_sha256 key msg).
Proof.
  apply digest_is_bytes.
Qed.

Lemma hex_digit_lower (n : Z) : 0 <= n < 16 -> lower_hex_digit (hex_digit n) = true.
Proof.
  intros Hn.
  assert (forallb (fun k => lower_hex_digit (hex_digit (Z.of_nat k))) (seq 0 16) = true)
    as Hall by reflexivity.
  rewrite forallb_forall in Hall.
  specialize (Hall (Z.to_nat n)). rewrite Z2Nat.id in Hall by lia.
  apply Hall, in_seq. lia.
Qed.

Lemma lower_hex_digit_unreserved (c : ascii) :
  lower_hex_digit c = true -> form_unreserved (byte_of_ascii c) = true.
Proof.
  unfold lower_hex_digit, form_unreserved. cbv zeta. intros H.
  apply orb_true_iff in H.
  destruct H as [H|H]; apply andb_true_iff in H; destruct H as [Hlo Hhi].
  - now rewrite Hlo, Hhi.
  - rewrite Hlo. apply Z.leb_le in Hhi.
    assert ((byte_of_ascii c <=? 122) = true) as -> by (apply Z.leb_le; lia).
    now rewrite !orb_true_r.
Qed.

Lemma hex_encode_lower (bs : list Z) :
  Forall is_byte bs -> all_chars lower_hex_digit (hex_encode bs) = true.
Proof.
  induction 1 as [|b bs Hb _ IH]; [reflexivity|]. simpl. unfold is_byte in Hb.
  rewrite !hex_digit_lower, IH; [reflexivity| |].
  - apply Z.mod_pos_bound. lia.
  - split; [apply Z.div_pos; lia|apply Z.div_lt_upper_bound; lia].
Qed.

Lemma form_encode_unreserved (s : string) :
  plain_text s = true -> form_encode s = s.
Proof.
  unfold plain_text.
  induction s as [|c s IH]; [reflexivity|]. simpl. intros H.
  apply andb_true_iff in H. destruct H as [Hc Hs].
  now rewrite Hc, IH.
Qed.

Lemma all_chars_weaken (p q : ascii -> bool) (s : string) :
  (forall c, p c = true -> q c = true) -> all_chars p s = true -> all_chars q s = true.
Proof.
  intros Hpq. induction s as [|c s IH]; [reflexivity|]. simpl. intros H.
  apply andb_true_iff in H. destruct H as [Hc Hs].
  now rewrite (Hpq c Hc), IH.
Qed.

Lemma form_encode_hex (bs : list Z) :
  Forall is_byte bs -> form_encode (hex_encode bs) = hex_encode bs.
Proof.
  intros Hbs. apply form_encode_unreserved.
  apply (all_chars_weaken lower_hex_digit); [apply lower_hex_digit_unreserved|].
  now apply hex_encode_lower.
Qed.

(** *** The model of [sort] orders by the comparator *)

Section Sorting.

Variable compare : string -> string -> Z.

Lemma sort_insert_permutation (x : string) (sorted : list string) :
  Permutation (x :: sorted) (sort_insert compare x sorted).
Proof.
  induction sorted as [|y rest IH]; simpl; [reflexivity|].
  destruct (compare x y <? 0); [reflexivity|].
  rewrite <- IH. apply perm_swap.
Qed.

Lemma sort_fold_permutation (keys acc : list string) :
  Permutation (rev keys ++ acc)
    (fold_left (fun sorted key => sort_insert compare key sorted) keys acc).
Proof.
  revert acc. induction keys as [|k keys IH]; intros acc; simpl; [reflexivity|].
  rewrite <- IH, <- app_assoc. simpl.
  apply Permutation_app_head, sort_insert_permutation.
Qed.

Lemma sort_permutation (keys : list string) : Permutation keys (sort compare keys).
Proof.
  unfold sort. rewrite <- sort_fold_permutation, app_nil_r.
  apply Permutation_rev.
Qed.

Lemma sort_length (keys : list string) : length (sort compare keys) = length keys.
Proof.
  symmetry. apply Permutation_length, sort_permutation.
Qed.

Hypothesis compare_asymmetric : forall a b, compare a b < 0 -> ~ compare b a < 0.

Lemma sort_insert_head (x : string) (sorted : list string) (z : string) :
  in_order compare z x -> HdRel (in_order compare) z sorted ->
  HdRel (in_order compare) z (sort_insert compare x sorted).
Proof.
  intros Hzx Hhd. destruct sorted as [|y rest]; simpl.
  - now constructor.
  - destruct (compare x y <? 0); constructor; [exact Hzx|].
    now inversion Hhd.
Qed.

Lemma sort_insert_sorted (x : string) (sorted : list string) :
  Sorted (in_order compare) sorted ->
  Sorted (in_order compare) (sort_insert compare x sorted).
Proof.
  induction 1 as [|y rest Hrest IH Hhd]; simpl.
  - repeat constructor.
  - destruct (compare x y <? 0) eqn:Hxy.
    + apply Z.ltb_lt in Hxy. constructor; [now constructor|].
      constructor. now apply compare_asymmetric.
    + apply Z.ltb_ge in Hxy. constructor; [exact IH|].
      apply sort_insert_head; [unfold in_order; lia|exact Hhd].
Qed.

Lemma sort_sorted (keys : list string) : Sorted (in_order compare) (sort compare keys).
Proof.
  unfold sort.
  assert (forall acc, Sorted (in_order compare) acc ->
            Sorted (in_order compare)
              (fold_left (fun sorted key => sort_insert compare key sorted) keys acc))
    as Hfold.
  { induction keys as [|k keys IH]; intros acc Hacc; simpl; [exact Hacc|].
    apply IH, sort_insert_sorted, Hacc. }
  apply Hfold. constructor.
Qed.

End Sorting.

(** Two comparators that agree in sign on the keys sort them alike. *)
Lemma sort_insert_ext (c1 c2 : string -> string -> Z) (x : string) (sorted : list string) :
  (forall y, In y sorted -> (c1 x y <? 0) = (c2 x y <? 0)) ->
  sort_insert c1 x sorted = sort_insert c2 x sorted.
Proof.
  induction sorted as [|y rest IH]; intros Hagree; simpl; [reflexivity|].
  rewrite <- (Hagree y) by (left; reflexivity).
  destruct (c1 x y <? 0); [reflexivity|].
  f_equal. apply IH. intros z Hz. apply Hagree. now right.
Qed.

Lemma sort_ext (c1 c2 : string -> string -> Z) (keys : list string) :
  (forall x y, In x keys -> In y keys -> (c1 x y <? 0) = (c2 x y <? 0)) ->
  sort c1 keys = sort c2 keys.
Proof.
  intros Hagree. unfold sort.
  assert (forall todo acc, (forall x, In x todo -> In x keys) ->
            (forall x, In x acc -> In x keys) ->
            fold_left (fun sorted key => sort_insert c1 key sorted) todo acc =
            fold_left (fun sorted key => sort_insert c2 key sorted) todo acc) as Hfold.
  { induction todo as [|k todo IH]; intros acc Htodo Hacc; simpl; [reflexivity|].
    rewrite (sort_insert_ext c1 c2 k acc).
    - apply IH.
      + intros x Hx. apply Htodo. now right.
      + intros x Hx.
        apply (Permutation_in x (Permutation_sym (sort_insert_permutation c2 k acc))) in Hx.
        destruct Hx as [<-|Hx]; [apply Htodo; now left|now apply Hacc].
    - intros y Hy. apply Hagree; [apply Htodo; now left|now apply Hacc]. }
  apply Hfold; [auto|intros x []].
Qed.

(** *** queryArgs *)

Lemma append_all (value_of : string -> string) (keys : list string) (acc : URLSearchParams) :
  fold_left (fun args key => append args key (value_of key)) keys acc =
    acc ++ map (fun key => (key, value_of key)) keys.
Proof.
  revert acc. induction keys as [|k keys IH]; intros acc; simpl.
  - now rewrite app_nil_r.
  - rewrite IH. unfold append. now rewrite <- app_assoc.
Qed.

Lemma sorted_args_entries (compare : string -> string -> Z) (now : Z)
    (query : list (string * string)) :
  sorted_args compare now query =
    map (fun key => (key, query_get (with_timestamp now query) key))
        (sort compare (map fst (with_timestamp now query))).
Proof.
  unfold sorted_args. now rewrite append_all.
Qed.

Lemma with_timestamp_has_timestamp (now : Z) (query : list (string * string)) :
  query_has "timestamp" (with_timestamp now query) = true.
Proof.
  unfold with_timestamp.
  destruct (query_has "timestamp" query) eqn:Hhas; simpl; [exact Hhas|].
  unfold query_has. rewrite existsb_app. simpl. now rewrite orb_true_r.
Qed.

Lemma sorted_args_not_empty (compare : string -> string -> Z) (now : Z)
    (query : list (string * string)) :
  sorted_args compare now query <> [].
Proof.
  rewrite sorted_args_entries. intros Hnil.
  apply (f_equal (@length _)) in Hnil.
  rewrite length_map, sort_length, length_map in Hnil.
  pose proof (with_timestamp_has_timestamp now query) as Hhas.
  destruct (with_timestamp now query); [discriminate Hhas|discriminate Hnil].
Qed.

Lemma queryArgs_appends_hmac (compare : string -> string -> Z) (now : Z)
    (apiSecretKey : string) (query : list (string * string)) :
  queryArgs compare now apiSecretKey query =
    toString (sorted_args compare now query) +:+ "&hmac=" +:+
    queryArgs_hmac compare now apiSecretKey query.
Proof.
  unfold queryArgs. rewrite toString_append by apply sorted_args_not_empty.
  unfold queryArgs_hmac, createTestHmac.
  rewrite form_encode_hex by apply hmac_sha256_is_bytes.
  reflexivity.
Qed.

Lemma query_get_entry (query : list (string * string)) (key : string) :
  In key (map fst query) -> In (key, query_get query key) query.
Proof.
  induction query as [|[k v] rest IH]; simpl; [tauto|]. intros Hin.
  destruct (String.eqb k key) eqn:Hk.
  - apply String.eqb_eq in Hk. subst k. now left.
  - right. apply IH. destruct Hin as [Heq|Hin]; [|exact Hin].
    apply String.eqb_neq in Hk. congruence.
Qed.

(** Where nothing needs encoding and the comparator orders the keys as
    their bytes do, the signed text is the plain sorted join. *)
Lemma signed_text_of_plain_query (compare : string -> string -> Z) (now : Z)
    (query : list (string * string)) :
  Forall (fun kv => plain_text (fst kv) = true /\ plain_text (snd kv) = true)
         (with_timestamp now query) ->
  (forall a b, In a (map fst (with_timestamp now query)) ->
               In b (map fst (with_timestamp now query)) ->
               (compare a b <? 0) = (ordinal_compare a b <? 0)) ->
  toString (sorted_args compare now query) = canonical_query_string now query.
Proof.
  intros Hplain Hagree.
  rewrite sorted_args_entries. unfold toString, canonical_query_string.
  rewrite map_map. simpl.
  rewrite (sort_ext compare ordinal_compare _ Hagree).
  f_equal. apply map_ext_in. intros key Hkey.
  apply (Permutation_in key (Permutation_sym (sort_permutation ordinal_compare _))) in Hkey.
  apply query_get_entry in Hkey.
  rewrite List.Forall_forall in Hplain. destruct (Hplain _ Hkey) as [Hk Hv]. simpl in Hk, Hv.
  now rewrite !form_encode_unreserved.
Qed.

(** The arguments for the query of the specification's example. *)
Lemma sorted_args_of_example (compare : string -> string -> Z) (now : Z) :
  0 < compare "timestamp" "shop" ->
  sorted_args compare now [("shop", "a.myshopify.io"); ("timestamp", "1700000000")]
    = [("shop", "a.myshopify.io"); ("timestamp", "1700000000")].
Proof.
  intros Hafter. unfold sorted_args, sort.
  assert (with_timestamp now [("shop", "a.myshopify.io"); ("timestamp", "1700000000")]
          = [("shop", "a.myshopify.io"); ("timestamp", "1700000000")]) as -> by reflexivity.
  simpl.
  destruct (Z.ltb_spec (compare "timestamp" "shop") 0); [lia|reflexivity].
Qed.

(** C2 (amended): queryArgs adds a [timestamp] entry of the current Unix
    time in seconds when the query has none, orders the keys with
    [localeCompare], serialises the entries in the URL-encoded form
    [key=value&...] and appends [&hmac=] followed by the lower-case
    hexadecimal HMAC-SHA256 of that serialised text keyed by the API
    secret.  The serialised text is the plain join in byte order of the
    keys when no key or value needs encoding and [localeCompare] orders the
    keys as their bytes do.  For the query of shop [a.myshopify.io] and
    timestamp [1700000000], the secret [sekrit] and a comparator that puts
    [timestamp] after [shop], the signature is the HMAC of
    [shop=a.myshopify.io&timestamp=1700000000]. *)
Theorem queryArgs_signature (localeCompare : string -> string -> Z) (now : Z)
    (apiSecretKey : string) (query : list (string * string)) :
  let entries := with_timestamp now query in
  let args := map (fun key => (key, query_get entries key))
                  (sort localeCompare (map fst entries)) in
  let signed := toString args in
  (query_has "timestamp" query = true -> entries = query)
  /\ (query_has "timestamp" query = false ->
        entries = query ++ [("timestamp", pretty.pretty (now / 1000))])
  /\ Permutation (map fst entries) (map fst args)
  /\ ((forall a b, localeCompare a b < 0 -> ~ localeCompare b a < 0) ->
        Sorted (in_order localeCompare) (map fst args))
  /\ queryArgs localeCompare now apiSecretKey query =
       signed +:+ "&hmac=" +:+
       hex_encode (hmac_sha256 (bytes_of_string apiSecretKey) (bytes_of_string signed))
  /\ all_chars lower_hex_digit
       (hex_encode (hmac_sha256 (bytes_of_string apiSecretKey) (bytes_of_string signed))) = true
  /\ (Forall (fun kv => plain_text (fst kv) = true /\ plain_text (snd kv) = true) entries ->
      (forall a b, In a (map fst entries) -> In b (map fst entries) ->
                   (localeCompare a b <? 0) = (ordinal_compare a b <? 0)) ->
      signed = canonical_query_string now query)
  /\ (0 < localeCompare "timestamp" "shop" ->
      queryArgs localeCompare now "sekrit"
        [("shop", "a.myshopify.io"); ("timestamp", "1700000000")] =
        "shop=a.myshopify.io&timestamp=1700000000&hmac=" +:+
        hex_encode (hmac_sha256 (bytes_of_string "sekrit")
                      (bytes_of_string "shop=a.myshopify.io&timestamp=1700000000"))).
Proof.
  cbv zeta.
  assert (map fst (map (fun key => (key, query_get (with_timestamp now query) key))
                       (sort localeCompare (map fst (with_timestamp now query))))
          = sort localeCompare (map fst (with_timestamp now query))) as Hkeys.
  { rewrite map_map. simpl. apply map_id. }
  split; [unfold with_timestamp; now intros ->|].
  split; [unfold with_timestamp; now intros ->|].
  split; [rewrite Hkeys; apply sort_permutation|].
  split; [intros Hasym; rewrite Hkeys; now apply sort_sorted|].
  split.
  { rewrite queryArgs_appends_hmac. unfold queryArgs_hmac, createTestHmac.
    rewrite sorted_args_entries. reflexivity. }
  split; [apply hex_encode_lower, hmac_sha256_is_bytes|].
  split.
  { intros Hplain Hagree. rewrite <- sorted_args_entries.
    now apply signed_text_of_plain_query. }
  intros Hafter. unfold queryArgs, queryArgs_hmac.
  rewrite (sorted_args_of_example localeCompare now Hafter).
  vm_compute. reflexivity.
Qed.

(** The example query, signed with a comparator that is the byte order. *)
Lemma queryArgs_signature_example :
  queryArgs ordinal_compare 0 "sekrit"
    [("shop", "a.myshopify.io"); ("timestamp", "1700000000")] =
    "shop=a.myshopify.io&timestamp=1700000000&hmac=" +:+
    hex_encode (hmac_sha256 (bytes_of_string "sekrit")
                  (bytes_of_string "shop=a.myshopify.io&timestamp=1700000000"))
  /\ toString (map (fun key =>
                 (key, query_get (with_timestamp 0
                         [("shop", "a.myshopify.io"); ("timestamp", "1700000000")]) key))
              (sort ordinal_compare (map fst (with_timestamp 0
                         [("shop", "a.myshopify.io"); ("timestamp", "1700000000")]))))
     = canonical_query_string 0 [("shop", "a.myshopify.io"); ("timestamp", "1700000000")].
Proof.
  destruct (queryArgs_signature ordinal_compare 0 "sekrit"
              [("shop", "a.myshopify.io"); ("timestamp", "1700000000")])
    as (_ & _ & _ & _ & _ & _ & Hplain & Hexample).
  split.
  - apply Hexample. reflexivity.
  - apply Hplain.
    + repeat constructor.
    + reflexivity.
Defined.

(** The value of that signature. *)
Lemma queryArgs_example_value :
  queryArgs ordinal_compare 0 "sekrit"
    [("shop", "a.myshopify.io"); ("timestamp", "1700000000")] =
    "shop=a.myshopify.io&timestamp=1700000000&hmac=e183881a80ffa62be5046f46f5bb3f7d8816716ab63b8669b0394dceaf0d85cb".
Proof.
  vm_compute. reflexivity.
Qed.

(** A value with a space is signed in its encoded form [a+b], so the
    signature is not the HMAC of the unencoded join, even when the
    comparator is the byte order. *)
Lemma queryArgs_signs_encoded_text :
  toString (sorted_args ordinal_compare 0 query_with_space) = "timestamp=a+b"
  /\ canonical_query_string 0 query_with_space = "timestamp=a b"
  /\ queryArgs ordinal_compare 0 "sekrit" query_with_space =
       "timestamp=a+b&hmac=bb27e08bbd583ba0a1375ef3a65f890272cecb681f868766ab6103c01beb03b6"
  /\ queryArgs_hmac ordinal_compare 0 "sekrit" query_with_space <>
       hex_encode (hmac_sha256 (bytes_of_string "sekrit")
                     (bytes_of_string (canonical_query_string 0 query_with_space))).
Proof.
  repeat split; try (vm_compute; reflexivity).
  vm_compute. discriminate.
Qed.

(** Keys come in the order of the comparator: where it puts [a] before [B],
    as collations do, [a] is signed first although [B] is the smaller byte. *)
Lemma queryArgs_order_is_the_comparators (compare : string -> string -> Z) (now : Z) :
  compare "a" "B" < 0 -> 0 <= compare "timestamp" "a" -> 0 <= compare "timestamp" "B" ->
  toString (sorted_args compare now [("B", "1"); ("a", "2"); ("timestamp", "3")])
    = "a=2&B=1&timestamp=3"
  /\ canonical_query_string now [("B", "1"); ("a", "2"); ("timestamp", "3")]
    = "B=1&a=2&timestamp=3".
Proof.
  intros HaB Hta HtB. split; [|vm_compute; reflexivity].
  unfold sorted_args, sort.
  assert (with_timestamp now [("B", "1"); ("a", "2"); ("timestamp", "3")]
          = [("B", "1"); ("a", "2"); ("timestamp", "3")]) as -> by reflexivity.
  simpl.
  destruct (Z.ltb_spec (compare "a" "B") 0); [|lia]. simpl.
  destruct (Z.ltb_spec (compare "timestamp" "a") 0); [lia|].
  destruct (Z.ltb_spec (compare "timestamp" "B") 0); [lia|].
  vm_compute. reflexivity.
Qed.

(** A hook that fails is called once, and its exception is what the caller
    of the dispatcher gets. *)
Lemma triggerAfterAuthHook_example :
  let run :=
    triggerAfterAuthHook unit string string unit unit
      (fun _ _ _ => "admin") (fun _ _ => "embedded redirect") "standalone redirect"
      (failing_hook_params true) (VObject ClsSession example_record) tt example_strategy in
  hook_calls _ _ (fst run) =
    [{| session := VObject ClsSession example_record;
        admin := "admin"; redirect := "embedded redirect" |}]
  /\ snd run = Throws (Uncaught boom).
Proof.
  destruct (triggerAfterAuthHook_dispatch unit string string unit unit
              (fun _ _ _ => "admin") (fun _ _ => "embedded redirect") "standalone redirect"
              (failing_hook_params true) (VObject ClsSession example_record) tt
              example_strategy) as [_ Hhook].
  destruct (Hhook (fun _ => Rejected boom) eq_refl)
    as (options & Hcalls & _ & _ & _ & Hthrows & _).
  split.
  - reflexivity.
  - exact (Hthrows boom eq_refl).
Defined.

(** * Further properties of the adapter *)

(** X2: a session returned by loadSession never carries a non-empty text
    as [expires], whichever shape the callback answered with: an [expires]
    of type string can only be the empty text. *)
Theorem loadSession_returns_no_expires_text
    (Session_new : value -> value -> value -> value -> gmap string value)
    (Date_parse : string -> option Z)
    (ToString_rest : value -> option string)
    (this : CustomSessionStorage) (id : string) (v : value) :
  loadSession Session_new Date_parse ToString_rest this id = Returns v ->
  typeof (get_property v "expires") = "string" ->
  get_property v "expires" = VString "".
Proof.
  unfold loadSession.
  destruct (loadSessionCallback this id) as [result|r]; [|discriminate].
  assert (forall cls props,
            inherited_props cls = ∅ ->
            typeof (get_property (coerce_expires Date_parse (VObject cls props)) "expires")
              = "string" ->
            get_property (coerce_expires Date_parse (VObject cls props)) "expires"
              = VString "") as Hcoerced.
  { intros cls props Hinherited.
    destruct (coerce_expires_object Date_parse cls props Hinherited)
      as (fields & -> & _ & Hexp).
    rewrite (get_own_property cls fields "expires" Hinherited).
    unfold expires_coerced in Hexp.
    destruct (props !! "expires") as [before|]; [|now rewrite Hexp].
    destruct before as [| |b|x|t| | |]; rewrite Hexp; simpl; try discriminate.
    destruct (String.eqb t "") eqn:Hempty; [reflexivity|discriminate]. }
  destruct (truthy result); [|intros H; inversion H; discriminate].
  destruct (instanceof_Session result) eqn:Hsession.
  - destruct result as [| | | | | | |cls props]; try discriminate.
    destruct cls; try discriminate.
    intros H; inversion H. now apply Hcoerced.
  - destruct (instanceof_Object result && has_property "id" result).
    + intros H; inversion H. unfold spread. now apply Hcoerced.
    + destruct (constructor_name result) as [name|e];
        [destruct (template_text ToString_rest name)|]; discriminate.
Qed.

Lemma loadSession_returns_no_expires_text_example :
  get_property session_with_empty_expires "expires" = VString "".
Proof.
  apply (loadSession_returns_no_expires_text Session_constructor Date_parse_iso no_text
           (storage_loading (Resolved (VObject ClsObject record_with_empty_expires)))
           "x" session_with_empty_expires); reflexivity.
Defined.

Lemma coerce_expires_idempotent (Date_parse : string -> option Z) (s : value) :
  coerce_expires Date_parse (coerce_expires Date_parse s) = coerce_expires Date_parse s.
Proof.
  destruct s as [| | | | | | |cls props]; try reflexivity.
  unfold coerce_expires at 2.
  destruct (get_property (VObject cls props) "expires") as [| |b|x|text| | |] eqn:Hbefore;
    simpl; rewrite ?andb_false_r; try reflexivity.
  destruct (String.eqb text "") eqn:Hempty; simpl; [reflexivity|].
  unfold coerce_expires. rewrite Hbefore. simpl. rewrite Hempty. simpl.
  unfold get_property, lookup_property. rewrite lookup_insert_eq. reflexivity.
Qed.

Lemma coerce_expires_keeps_keys (Date_parse : string -> option Z)
    (cls : js_class) (props fields : gmap string value) (key : string) :
  inherited_props cls = ∅ ->
  coerce_expires Date_parse (VObject cls props) = VObject cls fields ->
  fields !! key = None -> props !! key = None.
Proof.
  intros Hinherited Heq Hnone.
  destruct (coerce_expires_object Date_parse cls props Hinherited)
    as (fields' & Heq' & Hother & Hexp).
  rewrite Heq in Heq'. inversion Heq'; subst fields'.
  destruct (decide (key = "expires")) as [->|Hkey].
  - unfold expires_coerced in Hexp.
    destruct (props !! "expires") as [before|]; [|reflexivity].
    destruct before; congruence.
  - now rewrite <- (Hother key Hkey).
Qed.

(** X3: loading is idempotent.  When the constructor of Session sets the
    same properties whatever its arguments, [id] among them, a session that
    loadSession returned, handed back by a load callback, is returned as it
    is. *)
Theorem loadSession_is_idempotent
    (Session_new : value -> value -> value -> value -> gmap string value)
    (Date_parse : string -> option Z)
    (ToString_rest : value -> option string)
    (this again : CustomSessionStorage) (id id' : string) (v : value) :
  (forall a b c d a' b' c' d',
     dom (Session_new a b c d) = dom (Session_new a' b' c' d')) ->
  (forall a b c d, is_Some (Session_new a b c d !! "id")) ->
  loadSession Session_new Date_parse ToString_rest this id = Returns v ->
  loadSessionCallback again id' = Resolved v ->
  loadSession Session_new Date_parse ToString_rest again id' = Returns v.
Proof.
  intros Hdom Hsets Hfirst Hagain.
  unfold loadSession in *. rewrite Hagain.
  destruct (loadSessionCallback this id) as [result|r]; [|discriminate].
  destruct (truthy result); [|now inversion Hfirst].
  destruct (instanceof_Session result) eqn:Hsession.
  - destruct result as [| | | | | | |cls props]; try discriminate.
    destruct cls; try discriminate.
    inversion Hfirst as [Hv].
    destruct (coerce_expires_object Date_parse ClsSession props eq_refl) as (fields & Heq & _).
    rewrite Heq. simpl. rewrite <- Heq. now rewrite coerce_expires_idempotent.
  - destruct (instanceof_Object result && has_property "id" result) eqn:Hid;
      [|destruct (constructor_name result) as [name|e];
        [destruct (template_text ToString_rest name)|]; discriminate].
    inversion Hfirst as [Hv]. unfold spread. cbn [own_props].
    set (props := own_props result).
    set (canonical := Session_new _ _ _ _).
    destruct (coerce_expires_object Date_parse ClsObject (props ∪ canonical) eq_refl)
      as (fields & Heq & Hother & Hexp).
    rewrite Heq. simpl.
    assert (is_Some (fields !! "id")) as Hfid.
    { rewrite Hother by discriminate. apply lookup_union_is_Some. right. apply Hsets. }
    assert (has_property "id" (VObject ClsObject fields) = true) as ->.
    { unfold has_property, lookup_property. apply bool_decide_eq_true_2.
      destruct Hfid as [x ->]. now exists x. }
    set (canonical' := Session_new _ _ _ _).
    assert (fields ∪ canonical' = fields) as ->.
    { apply map_eq. intros key.
      destruct (fields !! key) as [x|] eqn:Hkey.
      - now apply lookup_union_Some_l.
      - rewrite lookup_union_r by exact Hkey.
        apply (coerce_expires_keeps_keys Date_parse ClsObject _ _ key eq_refl Heq) in Hkey.
        apply lookup_union_None in Hkey. destruct Hkey as [_ Hkey].
        subst canonical canonical'. apply not_elem_of_dom.
        erewrite Hdom. apply not_elem_of_dom. exact Hkey. }
    rewrite <- Heq. now rewrite coerce_expires_idempotent.
Qed.

Lemma loadSession_is_idempotent_example :
  loadSession Session_constructor Date_parse_iso no_text
    (storage_loading (Resolved session_of_example_record)) "x"
  = Returns session_of_example_record.
Proof.
  apply (loadSession_is_idempotent Session_constructor Date_parse_iso no_text
           (storage_loading (Resolved (VObject ClsObject example_record)))
           (storage_loading (Resolved session_of_example_record)) "x" "x").
  - intros. reflexivity.
  - intros. exists a. reflexivity.
  - vm_compute. reflexivity.
  - reflexivity.
Defined.

(** X4: when the constructor of Session sets [id], loadSession returns
    undefined or an object, never another falsy or primitive value; the
    object is a Session instance or a plain object that has an [id]. *)
Theorem loadSession_returns_undefined_or_session
    (Session_new : value -> value -> value -> value -> gmap string value)
    (Date_parse : string -> option Z)
    (ToString_rest : value -> option string)
    (this : CustomSessionStorage) (id : string) (v : value) :
  (forall a b c d, is_Some (Session_new a b c d !! "id")) ->
  loadSession Session_new Date_parse ToString_rest this id = Returns v ->
  v = VUndefined
  \/ (exists fields, v = VObject ClsSession fields)
  \/ (exists fields, v = VObject ClsObject fields /\ is_Some (fields !! "id")).
Proof.
  intros Hsets. unfold loadSession.
  destruct (loadSessionCallback this id) as [result|r]; [|discriminate].
  destruct (truthy result); [|intros H; inversion H; now left].
  destruct (instanceof_Session result) eqn:Hsession.
  - destruct result as [| | | | | | |cls props]; try discriminate.
    destruct cls; try discriminate.
    destruct (coerce_expires_object Date_parse ClsSession props eq_refl) as (fields & Heq & _).
    rewrite Heq. intros H; inversion H. right. left. eauto.
  - destruct (instanceof_Object result && has_property "id" result) eqn:Hid;
      [|destruct (constructor_name result) as [name|e];
        [destruct (template_text ToString_rest name)|]; discriminate].
    unfold spread. cbn [own_props]. set (props := own_props result).
    set (canonical := Session_new _ _ _ _).
    destruct (coerce_expires_object Date_parse ClsObject (props ∪ canonical) eq_refl)
      as (fields & Heq & Hother & _).
    rewrite Heq. intros H; inversion H. right. right. exists fields.
    split; [reflexivity|]. rewrite Hother by discriminate.
    apply lookup_union_is_Some. right. apply Hsets.
Qed.

Lemma loadSession_returns_undefined_or_session_example :
  session_with_empty_expires = VUndefined
  \/ (exists fields, session_with_empty_expires = VObject ClsSession fields)
  \/ (exists fields, session_with_empty_expires = VObject ClsObject fields
                     /\ is_Some (fields !! "id")).
Proof.
  apply (loadSession_returns_undefined_or_session Session_constructor Date_parse_iso no_text
           (storage_loading (Resolved (VObject ClsObject record_with_empty_expires))) "x").
  - intros. exists a. reflexivity.
  - reflexivity.
Defined.

(** The [id] of the returned object comes from the constructor when the
    answer of the callback only inherits it: with a constructor that sets
    nothing, the object returned has no [id] of its own, and is refused
    when it is loaded again. *)
Lemma loadSession_inherited_id_unset :
  loadSession (fun _ _ _ _ => ∅) Date_parse_iso no_text
    (storage_loading (Resolved instance_with_inherited_id)) "x"
  = Returns (VObject ClsObject (<["shop" := VString "s.myshopify.io"]> ∅))
  /\ loadSession (fun _ _ _ _ => ∅) Date_parse_iso no_text
       (storage_loading
          (Resolved (VObject ClsObject (<["shop" := VString "s.myshopify.io"]> ∅)))) "x"
     = Throws (SessionStorageError
         "Expected return to be instanceof Session, but received instanceof Object.").
Proof.
  split; vm_compute; reflexivity.
Qed.

(** * Further properties of the signing helpers *)

Lemma compress_length (h block : list Z) :
  length h = 8%nat -> length (SHA256.compress h block) = 8%nat.
Proof.
  intros Hh. unfold SHA256.compress. cbv zeta.
  rewrite length_map, length_combine, Hh. reflexivity.
Qed.

Lemma digest_length (msg : list Z) : length (SHA256.digest msg) = 32%nat.
Proof.
  unfold SHA256.digest. cbv zeta.
  generalize (SHA256.chunks16 (length (SHA256.words_of_bytes (SHA256.pad msg)))
                (SHA256.words_of_bytes (SHA256.pad msg))).
  intros blocks.
  assert (forall h, length h = 8%nat ->
            length (fold_left SHA256.compress blocks h) = 8%nat) as Hfold.
  { induction blocks as [|block blocks IH]; intros h Hh; simpl; [exact Hh|].
    apply IH, compress_length, Hh. }
  specialize (Hfold SHA256.H_init eq_refl).
  destruct (fold_left SHA256.compress blocks SHA256.H_init)
    as [|h0 [|h1 [|h2 [|h3 [|h4 [|h5 [|h6 [|h7 [|h8 rest]]]]]]]]]; try discriminate.
  reflexivity.
Qed.

Lemma hex_encode_length (bs : list Z) :
  String.length (hex_encode bs) = (2 * length bs)%nat.
Proof.
  induction bs as [|b bs IH]; simpl; [reflexivity|]. rewrite IH. lia.
Qed.

Lemma list_ind3 (P : list Z -> Prop) :
  P [] -> (forall a, P [a]) -> (forall a b, P [a; b]) ->
  (forall a b c rest, P rest -> P (a :: b :: c :: rest)) ->
  forall bs, P bs.
Proof.
  intros H0 H1 H2 H3.
  fix IH 1. intros [|a [|b [|c rest]]]; [exact H0|apply H1|apply H2|].
  apply H3, IH.
Qed.

Lemma base64_encode_length (bs : list Z) :
  Z.of_nat (String.length (base64_encode bs)) = 4 * ((Z.of_nat (length bs) + 2) / 3).
Proof.
  induction bs as [| | |a b c rest IH] using list_ind3; try reflexivity.
  change (base64_encode (a :: b :: c :: rest))
    with (String (base64_digit (a / 4))
            (String (base64_digit (a mod 4 * 16 + b / 16))
               (String (base64_digit (b mod 16 * 4 + c / 64))
                  (String (base64_digit (c mod 64)) (base64_encode rest))))).
  cbn [String.length length]. rewrite !Nat2Z.inj_succ, IH.
  replace (Z.succ (Z.succ (Z.succ (Z.of_nat (length rest)))) + 2)
    with ((Z.of_nat (length rest) + 2) + 1 * 3) by lia.
  rewrite Z.div_add by lia. lia.
Qed.

Lemma base64_digit_char (n : Z) : 0 <= n < 64 -> base64_char (base64_digit n) = true.
Proof.
  intros Hn.
  assert (forallb (fun k => base64_char (base64_digit (Z.of_nat k))) (seq 0 64) = true)
    as Hall by reflexivity.
  rewrite forallb_forall in Hall.
  specialize (Hall (Z.to_nat n)). rewrite Z2Nat.id in Hall by lia.
  apply Hall, in_seq. lia.
Qed.

Lemma base64_encode_chars (bs : list Z) :
  Forall is_byte bs -> all_chars base64_char (base64_encode bs) = true.
Proof.
  unfold is_byte.
  induction bs as [|a|a b|a b c rest IH] using list_ind3; intros Hbs.
  - reflexivity.
  - inversion Hbs; subst. cbn [base64_encode all_chars].
    rewrite !base64_digit_char by (Z.div_mod_to_equations; lia). reflexivity.
  - inversion Hbs as [|? ? ? Hb]; subst. inversion Hb; subst.
    cbn [base64_encode all_chars].
    rewrite !base64_digit_char by (Z.div_mod_to_equations; lia). reflexivity.
  - inversion Hbs as [|? ? ? Hb]; subst. inversion Hb as [|? ? ? Hc]; subst.
    inversion Hc; subst.
    change (base64_encode (a :: b :: c :: rest))
      with (String (base64_digit (a / 4))
              (String (base64_digit (a mod 4 * 16 + b / 16))
                 (String (base64_digit (b mod 16 * 4 + c / 64))
                    (String (base64_digit (c mod 64)) (base64_encode rest))))).
    cbn [all_chars].
    rewrite !base64_digit_char by (Z.div_mod_to_equations; lia).
    rewrite IH by assumption. reflexivity.
Qed.

(** X5: for every key and body, createTestHmac gives 64 lower-case
    hexadecimal digits with the [hex] digest and 44 characters of the
    base64 alphabet with the [base64] digest. *)
Theorem createTestHmac_shape (secretKey body : string) :
  String.length (createTestHmac secretKey body hex) = 64%nat
  /\ all_chars lower_hex_digit (createTestHmac secretKey body hex) = true
  /\ String.length (createTestHmac secretKey body base64) = 44%nat
  /\ all_chars base64_char (createTestHmac secretKey body base64) = true.
Proof.
  unfold createTestHmac. cbv zeta.
  assert (length (hmac_sha256 (bytes_of_string secretKey) (bytes_of_string body)) = 32%nat)
    as Hlen by apply digest_length.
  repeat split.
  - now rewrite hex_encode_length, Hlen.
  - apply hex_encode_lower, hmac_sha256_is_bytes.
  - apply Nat2Z.inj. rewrite base64_encode_length, Hlen. reflexivity.
  - apply base64_encode_chars, hmac_sha256_is_bytes.
Qed.

(** *** The order of the query's entries does not matter *)

Lemma query_has_permutation (key : string) (q q' : list (string * string)) :
  Permutation q q' -> query_has key q = query_has key q'.
Proof.
  unfold query_has.
  induction 1 as [|x l l' _ IH|x y l|l l' l'' _ IH1 _ IH2]; simpl.
  - reflexivity.
  - now rewrite IH.
  - now rewrite !orb_assoc, (orb_comm (String.eqb (fst y) key)).
  - now rewrite IH1.
Qed.

Lemma with_timestamp_permutation (now : Z) (q q' : list (string * string)) :
  Permutation q q' -> Permutation (with_timestamp now q) (with_timestamp now q').
Proof.
  intros Hperm. unfold with_timestamp.
  rewrite <- (query_has_permutation "timestamp" q q' Hperm).
  destruct (query_has "timestamp" q); simpl; [exact Hperm|].
  now apply Permutation_app_tail.
Qed.

Lemma query_has_false (key : string) (q : list (string * string)) :
  query_has key q = false -> ~ In key (map fst q).
Proof.
  unfold query_has. induction q as [|[k v] q IH]; simpl; [tauto|].
  intros H. apply orb_false_iff in H. destruct H as [Hk Hq].
  apply String.eqb_neq in Hk. intros [Heq|Hin]; [congruence|now apply IH].
Qed.

Lemma with_timestamp_NoDup (now : Z) (q : list (string * string)) :
  NoDup (map fst q) -> NoDup (map fst (with_timestamp now q)).
Proof.
  intros Hq. unfold with_timestamp.
  destruct (query_has "timestamp" q) eqn:Hhas; simpl; [exact Hq|].
  rewrite map_app. simpl.
  apply NoDup_app. split; [exact Hq|]. split.
  - intros key Hkey Hin. apply list_elem_of_In in Hkey.
    apply list_elem_of_In in Hin. destruct Hin as [<-|[]].
    now apply (query_has_false "timestamp" q).
  - apply NoDup_singleton.
Qed.

Lemma query_get_of_entry (q : list (string * string)) (key val : string) :
  NoDup (map fst q) -> In (key, val) q -> query_get q key = val.
Proof.
  induction q as [|[k v] q IH]; simpl; [tauto|]. intros Hnodup Hin.
  apply NoDup_cons in Hnodup. destruct Hnodup as [Hk Hq].
  destruct Hin as [Heq|Hin].
  - inversion Heq; subst. now rewrite String.eqb_refl.
  - destruct (String.eqb k key) eqn:Hkey; [|now apply IH].
    apply String.eqb_eq in Hkey. subst k. exfalso. apply Hk.
    apply list_elem_of_In, in_map_iff. now exists (key, val).
Qed.

Lemma query_get_permutation (q q' : list (string * string)) (key : string) :
  NoDup (map fst q) -> Permutation q q' -> In key (map fst q) ->
  query_get q key = query_get q' key.
Proof.
  intros Hnodup Hperm Hkey. symmetry. apply query_get_of_entry.
  - now rewrite <- Hperm.
  - apply (Permutation_in _ Hperm), query_get_entry, Hkey.
Qed.

(** *** A strictly ordered list is determined by its elements *)

Section SortedUnique.

Variable compare : string -> string -> Z.
Variable keys : list string.
Hypothesis compare_order : strict_total_order_on keys compare.

Lemma sort_insert_sorted_on (x : string) (sorted : list string) :
  In x keys -> (forall y, In y sorted -> In y keys) ->
  Sorted (in_order compare) sorted ->
  Sorted (in_order compare) (sort_insert compare x sorted).
Proof.
  intros Hx Hin Hsorted. induction Hsorted as [|y rest Hrest IH Hhd]; simpl.
  - repeat constructor.
  - destruct (compare x y <? 0) eqn:Hxy.
    + apply Z.ltb_lt in Hxy. constructor; [now constructor|].
      constructor. destruct compare_order as (Hasym & _ & _).
      apply Hasym; [exact Hx|apply Hin; now left|exact Hxy].
    + apply Z.ltb_ge in Hxy.
      constructor; [apply IH; intros z Hz; apply Hin; now right|].
      apply sort_insert_head; [unfold in_order; lia|exact Hhd].
Qed.

Lemma sort_sorted_on (l : list string) :
  (forall k, In k l -> In k keys) -> Sorted (in_order compare) (sort compare l).
Proof.
  intros Hl. unfold sort.
  assert (forall todo acc,
            (forall k, In k todo -> In k keys) -> (forall k, In k acc -> In k keys) ->
            Sorted (in_order compare) acc ->
            Sorted (in_order compare)
              (fold_left (fun sorted key => sort_insert compare key sorted) todo acc))
    as Hfold.
  { induction todo as [|k todo IH]; intros acc Htodo Hacc Hsorted; simpl; [exact Hsorted|].
    apply IH.
    - intros z Hz. apply Htodo. now right.
    - intros z Hz.
      apply (Permutation_in z (Permutation_sym (sort_insert_permutation compare k acc)))
        in Hz.
      destruct Hz as [<-|Hz]; [apply Htodo; now left|now apply Hacc].
    - apply sort_insert_sorted_on; [apply Htodo; now left|exact Hacc|exact Hsorted]. }
  apply Hfold; [exact Hl|intros k []|constructor].
Qed.

Lemma sorted_below (l : list string) :
  (forall k, In k l -> In k keys) ->
  Sorted (in_order compare) l -> NoDup l ->
  StronglySorted (fun a b => compare a b < 0) l.
Proof.
  intros Hl Hsorted. revert Hl.
  destruct compare_order as (_ & Htrans & Htotal).
  induction Hsorted as [|x l Hsorted IH Hhd]; intros Hl Hnodup; [constructor|].
  apply NoDup_cons in Hnodup. destruct Hnodup as [Hx Hnodup].
  assert (StronglySorted (fun a b => compare a b < 0) l) as Hstrong
    by (apply IH; [intros k Hk; apply Hl; now right|exact Hnodup]).
  constructor; [exact Hstrong|].
  destruct Hhd as [|y l Hxy]; [constructor|].
  assert (compare x y < 0) as Hbelow.
  { destruct (Htotal x y) as [H|H];
      [apply Hl; now left|apply Hl; right; now left| |exact H|now elim Hxy].
    intros ->. apply Hx. now left. }
  constructor; [exact Hbelow|].
  apply StronglySorted_inv in Hstrong. destruct Hstrong as [_ Hy].
  rewrite List.Forall_forall in Hy. apply List.Forall_forall. intros z Hz.
  apply (Htrans x y z);
    [apply Hl; now left|apply Hl; right; now left|apply Hl; right; now right
    |exact Hbelow|now apply Hy].
Qed.

Lemma strongly_sorted_unique (l l' : list string) :
  (forall k, In k l -> In k keys) ->
  StronglySorted (fun a b => compare a b < 0) l ->
  StronglySorted (fun a b => compare a b < 0) l' ->
  Permutation l l' -> l = l'.
Proof.
  intros Hkeys Hl. revert Hkeys l'.
  induction Hl as [|x l Hl IH Hx]; intros Hkeys l' Hl' Hperm.
  - now apply Permutation_nil in Hperm.
  - destruct Hl' as [|y l' Hl' Hy].
    + apply Permutation_sym, Permutation_nil in Hperm. discriminate.
    + assert (x = y) as ->.
      { destruct (decide (x = y)) as [|Hne]; [assumption|]. exfalso.
        assert (In x (y :: l')) as Hin by (apply (Permutation_in _ Hperm); now left).
        assert (In y (x :: l)) as Hin'
          by (apply (Permutation_in _ (Permutation_sym Hperm)); now left).
        destruct Hin as [Heq|Hin]; [congruence|].
        destruct Hin' as [Heq|Hin']; [congruence|].
        rewrite List.Forall_forall in Hx, Hy.
        destruct compare_order as (Hasym & _ & _).
        apply (Hasym x y); [apply Hkeys; now left|apply Hkeys; now right| |];
          [exact (Hx y Hin')|exact (Hy x Hin)]. }
      f_equal. apply IH; [intros k Hk; apply Hkeys; now right|exact Hl'|].
      now apply Permutation_cons_inv in Hperm.
Qed.

Lemma sort_of_permutation (l l' : list string) :
  (forall k, In k l -> In k keys) ->
  NoDup l -> Permutation l l' -> sort compare l = sort compare l'.
Proof.
  intros Hkeys Hnodup Hperm.
  assert (forall k, In k l' -> In k keys) as Hkeys'
    by (intros k Hk; apply Hkeys, (Permutation_in k (Permutation_sym Hperm) Hk)).
  assert (forall m, (forall k, In k m -> In k keys) ->
            forall k, In k (sort compare m) -> In k keys) as Hsorted.
  { intros m Hm k Hk.
    apply Hm, (Permutation_in k (Permutation_sym (sort_permutation compare m)) Hk). }
  apply strongly_sorted_unique.
  - now apply Hsorted.
  - apply sorted_below; [now apply Hsorted|now apply sort_sorted_on|].
    now rewrite <- (sort_permutation compare l).
  - apply sorted_below; [now apply Hsorted|now apply sort_sorted_on|].
    now rewrite <- (sort_permutation compare l'), <- Hperm.
  - now rewrite <- (sort_permutation compare l), <- (sort_permutation compare l').
Qed.

End SortedUnique.

(** The byte order of texts orders every list of keys. *)
Lemma ordinal_compare_orders (keys : list string) :
  strict_total_order_on keys ordinal_compare.
Proof.
  assert (forall a b, ordinal_compare a b < 0 <-> OrderedTypeEx.String_as_OT.lt a b)
    as Hlt.
  { intros a b. rewrite <- OrderedTypeEx.String_as_OT.cmp_lt. unfold ordinal_compare.
    change (OrderedTypeEx.String_as_OT.cmp a b) with (String.compare a b).
    destruct (String.compare a b); split; (lia || discriminate || reflexivity). }
  repeat split.
  - intros a b _ _ Hab Hba. apply Hlt in Hab, Hba.
    apply (OrderedTypeEx.String_as_OT.lt_not_eq a a); [|reflexivity].
    now apply (OrderedTypeEx.String_as_OT.lt_trans a b a).
  - intros a b c _ _ _ Hab Hbc. apply Hlt. apply Hlt in Hab, Hbc.
    now apply (OrderedTypeEx.String_as_OT.lt_trans a b c).
  - intros a b _ _ Hne. unfold ordinal_compare.
    rewrite (String.compare_antisym b a).
    destruct (String.compare a b) eqn:Hcmp; simpl; [|left; lia|right; lia].
    now apply String.compare_eq_iff in Hcmp.
Qed.

(** The comparator that ignores case does not order all texts, and orders
    the keys of the example. *)
Lemma caseless_compare_ties :
  "a" <> "A" /\ caseless_compare "a" "A" = 0 /\ caseless_compare "A" "a" = 0.
Proof.
  repeat split. discriminate.
Qed.

Lemma caseless_compare_orders_example :
  strict_total_order_on ["Shop"; "host"; "timestamp"] caseless_compare.
Proof.
  repeat split.
  - intros a b Ha Hb.
    repeat (destruct Ha as [<-|Ha]; [|]); try contradiction;
      repeat (destruct Hb as [<-|Hb]; [|]); try contradiction;
      vm_compute; intros; discriminate.
  - intros a b c Ha Hb Hc.
    repeat (destruct Ha as [<-|Ha]; [|]); try contradiction;
      repeat (destruct Hb as [<-|Hb]; [|]); try contradiction;
      repeat (destruct Hc as [<-|Hc]; [|]); try contradiction;
      vm_compute; intros; (discriminate || reflexivity).
  - intros a b Ha Hb.
    repeat (destruct Ha as [<-|Ha]; [|]); try contradiction;
      repeat (destruct Hb as [<-|Hb]; [|]); try contradiction;
      intros Hne; try (now elim Hne); vm_compute; auto.
Qed.

(** X6: under a comparator that orders the keys of the query (the
    timestamp among them) strictly and totally, whatever it does on other
    texts, the signed query string does not depend on the order in which
    the query object lists its (distinct) keys. *)
Theorem queryArgs_ignores_entry_order (localeCompare : string -> string -> Z) (now : Z)
    (apiSecretKey : string) (query query' : list (string * string)) :
  strict_total_order_on (map fst (with_timestamp now query)) localeCompare ->
  NoDup (map fst query) ->
  Permutation query query' ->
  queryArgs localeCompare now apiSecretKey query =
  queryArgs localeCompare now apiSecretKey query'.
Proof.
  intros Horder Hnodup Hperm.
  assert (sorted_args localeCompare now query = sorted_args localeCompare now query')
    as Hargs.
  { rewrite !sorted_args_entries.
    pose proof (with_timestamp_permutation now query query' Hperm) as Hperm'.
    pose proof (with_timestamp_NoDup now query Hnodup) as Hnodup'.
    rewrite <- (sort_of_permutation localeCompare _ Horder
                  (map fst (with_timestamp now query))
                  (map fst (with_timestamp now query')) (fun k Hk => Hk) Hnodup')
      by now apply Permutation_map.
    apply map_ext_in. intros key Hkey. f_equal.
    apply query_get_permutation; [exact Hnodup'|exact Hperm'|].
    now apply (Permutation_in key (Permutation_sym (sort_permutation localeCompare _))). }
  unfold queryArgs, queryArgs_hmac. now rewrite Hargs.
Qed.

Lemma queryArgs_ignores_entry_order_example :
  queryArgs caseless_compare 0 "sekrit" [("Shop", "a.myshopify.io"); ("host", "h")] =
  queryArgs caseless_compare 0 "sekrit" [("host", "h"); ("Shop", "a.myshopify.io")].
Proof.
  apply (queryArgs_ignores_entry_order caseless_compare 0 "sekrit").
  - exact caseless_compare_orders_example.
  - apply (bool_decide_unpack _). vm_compute. exact I.
  - apply perm_swap.
Defined.

(** X7: the timestamp is fixed by the first call.  Signing the query
    object again after queryArgs has added the timestamp gives the same
    text however much later it happens, and a query that brings its own
    timestamp is signed independently of the clock. *)
Theorem queryArgs_timestamp_fixed_once (localeCompare : string -> string -> Z)
    (now later : Z) (apiSecretKey : string) (query : list (string * string)) :
  queryArgs localeCompare later apiSecretKey (with_timestamp now query) =
    queryArgs localeCompare now apiSecretKey query
  /\ (query_has "timestamp" query = true ->
      queryArgs localeCompare later apiSecretKey query =
        queryArgs localeCompare now apiSecretKey query).
Proof.
  assert (forall q, query_has "timestamp" q = true ->
            forall t, with_timestamp t q = q) as Hkeep.
  { intros q Hq t. unfold with_timestamp. now rewrite Hq. }
  split.
  - unfold queryArgs, queryArgs_hmac, sorted_args.
    now rewrite (Hkeep _ (with_timestamp_has_timestamp now query) later).
  - intros Hhas. unfold queryArgs, queryArgs_hmac, sorted_args.
    now rewrite !(Hkeep _ Hhas).
Qed.

Lemma queryArgs_timestamp_fixed_once_example :
  queryArgs ordinal_compare 1800000000000 "sekrit"
    [("shop", "a.myshopify.io"); ("timestamp", "1700000000")] =
  queryArgs ordinal_compare 1700000000123 "sekrit"
    [("shop", "a.myshopify.io"); ("timestamp", "1700000000")].
Proof.
  apply (queryArgs_timestamp_fixed_once ordinal_compare 1700000000123 1800000000000
           "sekrit" [("shop", "a.myshopify.io"); ("timestamp", "1700000000")]).
  reflexivity.
Defined.

(** *** Keys and values cannot add separators *)

Lemma count_char_app (c : ascii) (a b : string) :
  count_char c (a +:+ b) = (count_char c a + count_char c b)%nat.
Proof.
  induction a as [|d a IH]; [reflexivity|].
  change (count_char c (String d (a +:+ b)) =
          ((if Ascii.eqb c d then 1 else 0) + count_char c a + count_char c b)%nat).
  cbn [count_char]. rewrite IH. lia.
Qed.

Lemma byte_of_ascii_range (c : ascii) : 0 <= byte_of_ascii c < 256.
Proof.
  unfold byte_of_ascii. pose proof (N_ascii_bounded c). lia.
Qed.

Lemma upper_hex_digit_unreserved (n : Z) :
  0 <= n < 16 -> form_unreserved (byte_of_ascii (upper_hex_digit n)) = true.
Proof.
  intros Hn.
  assert (forallb (fun k => form_unreserved (byte_of_ascii (upper_hex_digit (Z.of_nat k))))
                  (seq 0 16) = true) as Hall by reflexivity.
  rewrite forallb_forall in Hall.
  specialize (Hall (Z.to_nat n)). rewrite Z2Nat.id in Hall by lia.
  apply Hall, in_seq. lia.
Qed.

Section Separator.

(** A character the serialiser never emits: not unreserved, not [+], not [%]. *)
Variable sep : ascii.
Hypothesis sep_reserved : form_unreserved (byte_of_ascii sep) = false.
Hypothesis sep_not_plus : sep <> "+"%char.
Hypothesis sep_not_percent : sep <> "%"%char.

Lemma sep_not_unreserved (c : ascii) :
  form_unreserved (byte_of_ascii c) = true -> Ascii.eqb sep c = false.
Proof.
  intros Hc. apply Ascii.eqb_neq. intros <-. congruence.
Qed.

Lemma form_encode_no_separator (s : string) : count_char sep (form_encode s) = O.
Proof.
  induction s as [|c s IH]; [reflexivity|]. cbn [form_encode]. cbv zeta.
  pose proof (byte_of_ascii_range c) as Hc.
  destruct (form_unreserved (byte_of_ascii c)) eqn:Hunres.
  - cbn [count_char]. now rewrite (sep_not_unreserved c Hunres), IH.
  - destruct (byte_of_ascii c =? 32); cbn [count_char].
    + rewrite IH. now apply Ascii.eqb_neq in sep_not_plus as ->.
    + rewrite IH. apply Ascii.eqb_neq in sep_not_percent as ->.
      rewrite !sep_not_unreserved; [reflexivity| |];
        apply upper_hex_digit_unreserved; Z.div_mod_to_equations; lia.
Qed.

Lemma plain_text_no_separator (s : string) :
  plain_text s = true -> count_char sep s = O.
Proof.
  intros Hs. rewrite <- (form_encode_unreserved s Hs). apply form_encode_no_separator.
Qed.

End Separator.

Lemma lower_hex_is_plain (s : string) :
  all_chars lower_hex_digit s = true -> plain_text s = true.
Proof.
  apply all_chars_weaken, lower_hex_digit_unreserved.
Qed.

Lemma join_count (c : ascii) (k : nat) (parts : list string) :
  List.Forall (fun p => count_char c p = k) parts ->
  (count_char c (join "&" parts) + (if Ascii.eqb c "&" then 1 else 0)
   = length parts * (k + (if Ascii.eqb c "&" then 1 else 0)))%nat
  \/ parts = [].
Proof.
  induction 1 as [|p parts Hp Hparts IH]; [now right|]. left.
  destruct parts as [|q parts].
  - cbn [join length]. rewrite Hp. lia.
  - destruct IH as [IH|IH]; [|discriminate].
    change (join "&" (p :: q :: parts)) with (p +:+ "&" +:+ join "&" (q :: parts)).
    rewrite !count_char_app, Hp. cbn [length] in *. cbn [count_char].
    replace (Ascii.eqb c "&" || false) with (Ascii.eqb c "&") by now rewrite orb_false_r.
    destruct (Ascii.eqb c "&"); lia.
Qed.

Lemma toString_separators (args : URLSearchParams) :
  args <> [] ->
  S (count_char "&" (toString args)) = length args
  /\ count_char "=" (toString args) = length args.
Proof.
  intros Hargs. unfold toString.
  set (parts := map (fun kv : string * string =>
                       form_encode (fst kv) +:+ "=" +:+ form_encode (snd kv)) args).
  assert (length parts = length args) as Hlen by apply length_map.
  assert (parts <> []) as Hparts by (destruct args; [congruence|discriminate]).
  assert (List.Forall (fun p => count_char "&" p = 0%nat) parts) as Hamp.
  { apply List.Forall_forall. intros p Hp. apply in_map_iff in Hp.
    destruct Hp as (kv & <- & _). rewrite !count_char_app.
    rewrite !(form_encode_no_separator "&") by (reflexivity || discriminate).
    reflexivity. }
  assert (List.Forall (fun p => count_char "=" p = 1%nat) parts) as Heq.
  { apply List.Forall_forall. intros p Hp. apply in_map_iff in Hp.
    destruct Hp as (kv & <- & _). rewrite !count_char_app.
    rewrite !(form_encode_no_separator "=") by (reflexivity || discriminate).
    reflexivity. }
  destruct (join_count "&" 0 parts Hamp) as [Ha|Ha]; [|congruence].
  destruct (join_count "=" 1 parts Heq) as [He|He]; [|congruence].
  simpl Ascii.eqb in Ha, He. cbv iota in Ha, He. split; lia.
Qed.

(** X8: whatever the keys and values hold, the text returned by queryArgs
    has exactly one [&] per entry of the query (timestamp included) and one
    [=] more: its parameters are those entries and the hmac, and no key or
    value can add or merge parameters. *)
Theorem queryArgs_separators (localeCompare : string -> string -> Z) (now : Z)
    (apiSecretKey : string) (query : list (string * string)) :
  count_char "&" (queryArgs localeCompare now apiSecretKey query)
    = length (with_timestamp now query)
  /\ count_char "=" (queryArgs localeCompare now apiSecretKey query)
    = S (length (with_timestamp now query)).
Proof.
  rewrite queryArgs_appends_hmac.
  destruct (toString_separators (sorted_args localeCompare now query)
              (sorted_args_not_empty localeCompare now query)) as [Hamp Heq].
  assert (length (sorted_args localeCompare now query) = length (with_timestamp now query))
    as Hlen by (rewrite sorted_args_entries; now rewrite length_map, sort_length, length_map).
  assert (plain_text (queryArgs_hmac localeCompare now apiSecretKey query) = true) as Hhmac.
  { apply lower_hex_is_plain. unfold queryArgs_hmac, createTestHmac.
    apply hex_encode_lower, hmac_sha256_is_bytes. }
  assert (count_char "&" (queryArgs_hmac localeCompare now apiSecretKey query) = O) as Hamp'
    by (apply plain_text_no_separator; (reflexivity || discriminate || exact Hhmac)).
  assert (count_char "=" (queryArgs_hmac localeCompare now apiSecretKey query) = O) as Heq'
    by (apply plain_text_no_separator; (reflexivity || discriminate || exact Hhmac)).
  rewrite !count_char_app, Hamp', Heq'.
  cbn [count_char]. simpl Ascii.eqb. cbv iota. split; lia.
Qed.

(** *** The text determines the parameters *)

Lemma byte_of_ascii_inj (c c' : ascii) : byte_of_ascii c = byte_of_ascii c' -> c = c'.
Proof.
  unfold byte_of_ascii. intros H. apply N2Z.inj in H.
  rewrite <- (ascii_N_embedding c), <- (ascii_N_embedding c'). now rewrite H.
Qed.

Lemma upper_hex_digit_inj (m n : Z) :
  0 <= m < 16 -> 0 <= n < 16 -> upper_hex_digit m = upper_hex_digit n -> m = n.
Proof.
  intros Hm Hn Heq.
  assert (forallb (fun i => forallb (fun j =>
            implb (Ascii.eqb (upper_hex_digit (Z.of_nat i)) (upper_hex_digit (Z.of_nat j)))
                  (Nat.eqb i j)) (seq 0 16)) (seq 0 16) = true) as Hall by reflexivity.
  rewrite forallb_forall in Hall.
  specialize (Hall (Z.to_nat m)). rewrite forallb_forall in Hall.
  specialize (Hall ltac:(apply in_seq; lia) (Z.to_nat n) ltac:(apply in_seq; lia)).
  rewrite !Z2Nat.id in Hall by lia.
  rewrite Heq, Ascii.eqb_refl in Hall. simpl in Hall.
  apply Nat.eqb_eq in Hall. lia.
Qed.

Lemma form_encode_inj (s s' : string) : form_encode s = form_encode s' -> s = s'.
Proof.
  revert s'. induction s as [|c s IH]; intros [|c' s'] H.
  - reflexivity.
  - cbn [form_encode] in H. cbv zeta in H.
    destruct (form_unreserved (byte_of_ascii c')); [discriminate|].
    destruct (byte_of_ascii c' =? 32); discriminate.
  - cbn [form_encode] in H. cbv zeta in H.
    destruct (form_unreserved (byte_of_ascii c)); [discriminate|].
    destruct (byte_of_ascii c =? 32); discriminate.
  - cbn [form_encode] in H. cbv zeta in H.
    pose proof (byte_of_ascii_range c) as Hc.
    pose proof (byte_of_ascii_range c') as Hc'.
    destruct (form_unreserved (byte_of_ascii c)) eqn:U;
      destruct (form_unreserved (byte_of_ascii c')) eqn:U'.
    + inversion H. f_equal. now apply IH.
    + destruct (byte_of_ascii c' =? 32); inversion H; subst c; discriminate U.
    + destruct (byte_of_ascii c =? 32); inversion H; subst c'; discriminate U'.
    + destruct (byte_of_ascii c =? 32) eqn:S; destruct (byte_of_ascii c' =? 32) eqn:S';
        try discriminate H.
      * injection H as Hrest. apply Z.eqb_eq in S, S'. f_equal; [|now apply IH].
        apply byte_of_ascii_inj. congruence.
      * injection H as Hhi Hlo Hrest. f_equal; [|now apply IH].
        apply byte_of_ascii_inj.
        apply upper_hex_digit_inj in Hhi; [|Z.div_mod_to_equations; lia..].
        apply upper_hex_digit_inj in Hlo; [|Z.div_mod_to_equations; lia..].
        Z.div_mod_to_equations. lia.
Qed.

Lemma app_separator_unique (sep : ascii) (a a' b b' : string) :
  count_char sep a = O -> count_char sep a' = O ->
  a +:+ String sep b = a' +:+ String sep b' -> a = a' /\ b = b'.
Proof.
  revert a'. induction a as [|d a IH]; intros [|d' a'] Ha Ha' H.
  - change (String sep b = String sep b') in H. injection H as Hb. now split.
  - change (String sep b = String d' (a' +:+ String sep b')) in H.
    injection H as Hd _. subst d'. cbn [count_char] in Ha'.
    rewrite Ascii.eqb_refl in Ha'. discriminate.
  - change (String d (a +:+ String sep b) = String sep b') in H.
    injection H as Hd _. subst d. cbn [count_char] in Ha.
    rewrite Ascii.eqb_refl in Ha. discriminate.
  - change (String d (a +:+ String sep b) = String d' (a' +:+ String sep b')) in H.
    injection H as Hd Hrest. subst d'. cbn [count_char] in Ha, Ha'.
    destruct (IH a') as [-> ->]; [lia|lia|exact Hrest|]. now split.
Qed.

Lemma join_inj (parts parts' : list string) :
  List.Forall (fun p => count_char "&" p = O /\ p <> "") parts ->
  List.Forall (fun p => count_char "&" p = O /\ p <> "") parts' ->
  join "&" parts = join "&" parts' -> parts = parts'.
Proof.
  intros Hparts. revert parts'.
  induction Hparts as [|p parts [Hp Hne] Hparts IH]; intros parts' Hparts' H.
  - destruct Hparts' as [|p' parts' [_ Hne'] _]; [reflexivity|].
    destruct parts'; destruct p'; (congruence || discriminate).
  - destruct Hparts' as [|p' parts' [Hp' Hne'] Hparts'].
    + destruct parts; destruct p; (congruence || discriminate).
    + destruct parts as [|q parts], parts' as [|q' parts'].
      * cbn [join] in H. now subst.
      * change (p = p' +:+ String "&" (join "&" (q' :: parts'))) in H.
        rewrite H, count_char_app in Hp. cbn [count_char] in Hp.
        rewrite Ascii.eqb_refl in Hp. lia.
      * change (p +:+ String "&" (join "&" (q :: parts)) = p') in H.
        rewrite <- H, count_char_app in Hp'. cbn [count_char] in Hp'.
        rewrite Ascii.eqb_refl in Hp'. lia.
      * change (p +:+ String "&" (join "&" (q :: parts))
                = p' +:+ String "&" (join "&" (q' :: parts'))) in H.
        destruct (app_separator_unique "&" _ _ _ _ Hp Hp' H) as [-> Hrest].
        f_equal. now apply IH.
Qed.

Lemma toString_inj (args args' : URLSearchParams) :
  toString args = toString args' -> args = args'.
Proof.
  unfold toString.
  set (part := fun kv : string * string =>
                 form_encode (fst kv) +:+ "=" +:+ form_encode (snd kv)).
  assert (forall l, List.Forall (fun p => count_char "&" p = O /\ p <> "") (map part l))
    as Hparts.
  { intros l. apply List.Forall_forall. intros p Hp. apply in_map_iff in Hp.
    destruct Hp as (kv & <- & _). unfold part. split.
    - rewrite !count_char_app.
      rewrite !(form_encode_no_separator "&") by (reflexivity || discriminate).
      reflexivity.
    - intros Hempty. apply (f_equal (count_char "=")) in Hempty.
      rewrite !count_char_app in Hempty.
      rewrite !(form_encode_no_separator "=") in Hempty by (reflexivity || discriminate).
      discriminate. }
  intros H. apply join_inj in H; [|apply Hparts..].
  revert args' H. induction args as [|[k v] args IH]; intros [|[k' v'] args'] H;
    try discriminate; [reflexivity|].
  cbn [map] in H. injection H as Hpart Hrest. unfold part in Hpart. cbn [fst snd] in Hpart.
  apply (app_separator_unique "=") in Hpart;
    [|apply form_encode_no_separator; (reflexivity || discriminate)..].
  destruct Hpart as [Hk Hv].
  apply form_encode_inj in Hk, Hv. subst. f_equal. now apply IH.
Qed.

(** X9: the text returned by queryArgs determines the parameters that were
    signed: two calls that return the same text signed the same keys with
    the same values in the same order. *)
Theorem queryArgs_text_determines_parameters
    (compare compare' : string -> string -> Z) (now now' : Z)
    (apiSecretKey apiSecretKey' : string) (query query' : list (string * string)) :
  queryArgs compare now apiSecretKey query = queryArgs compare' now' apiSecretKey' query' ->
  sorted_args compare now query = sorted_args compare' now' query'.
Proof.
  unfold queryArgs, append. intros H.
  apply toString_inj in H. now apply app_inj_tail in H.
Qed.

Lemma queryArgs_text_determines_parameters_example :
  sorted_args ordinal_compare 5000 [("shop", "a.myshopify.io"); ("timestamp", "1700000000")]
  = sorted_args ordinal_compare 0 [("timestamp", "1700000000"); ("shop", "a.myshopify.io")].
Proof.
  apply (queryArgs_text_determines_parameters ordinal_compare ordinal_compare 5000 0
           "sekrit" "sekrit").
  vm_compute. reflexivity.
Defined.

(** * The request matcher *)

Lemma and_then_returns {A B : Type} (o : outcome A) (k : A -> outcome B) (b : B) :
  and_then o k = Returns b -> exists a, o = Returns a /\ k a = Returns b.
Proof.
  destruct o as [a|e]; simpl; [eauto|discriminate].
Qed.

(** X10: every use of the matcher moves the call counter on by one.  With
    no request at the current index it returns [pass: false] and the
    message that none was made, and this is the one case in which it
    returns [pass: false]: a request that does not match is reported by a
    thrown expectation error.  It returns [pass: true] only if both URL
    constructions and the read of the body went through, the body check
    passed, jest's toEqual accepted the two URL objects, and toMatchObject
    accepted the init against the expected method and headers (any headers
    when none are given). *)
Theorem toMatchMadeHttpRequest_verdict
    (toEqual toMatchObject : value -> value -> bool)
    (mismatch : string -> value -> value -> rejection)
    (URL_new : value -> outcome value) (JSON_parse : string -> option value)
    (calls : list (value * value)) (currentCall : nat)
    (params : AssertHttpRequestParams) :
  let run := toMatchMadeHttpRequest toEqual toMatchObject mismatch URL_new JSON_parse
               calls currentCall params in
  fst run = S currentCall
  /\ (calls !! currentCall = None ->
      snd run = Returns {| pass := false;
                           message := "Expected a request to be made but none were" |})
  /\ (forall result, snd run = Returns result ->
      (pass result = false <-> calls !! currentCall = None)
      /\ (pass result = true ->
          message result = "The expected HTTP requests have been seen"
          /\ exists input init expectedUrl requestUrl mockBody,
            calls !! currentCall = Some (input, init)
            /\ (if String.eqb (typeof (url params)) "string"
                then URL_new (url params) else Returns (url params)) = Returns expectedUrl
            /\ URL_new input = Returns requestUrl
            /\ toEqual requestUrl expectedUrl = true
            /\ toMatchObject init
                 (VObject ClsObject
                    (<["method" := method params]>
                       (<["headers" := with_default (headers params) arrayContaining_empty]>
                          ∅)))
               = true
            /\ read_body init = Returns mockBody
            /\ check_body toEqual toMatchObject mismatch JSON_parse
                 (with_default (body params) objectContaining_empty) mockBody = Returns tt)).
Proof.
  unfold toMatchMadeHttpRequest. cbv zeta. simpl fst. simpl snd.
  split; [reflexivity|]. split.
  - intros ->. reflexivity.
  - intros result.
    destruct (calls !! currentCall) as [[input init]|] eqn:Hcall.
    + intros H.
      apply and_then_returns in H. destruct H as (expectedUrl & Hexpected & H).
      apply and_then_returns in H. destruct H as (requestUrl & Hrequest & H).
      apply and_then_returns in H. destruct H as (mockBody & Hbody & H).
      apply and_then_returns in H. destruct H as ([] & Hcheck & H).
      apply and_then_returns in H. destruct H as ([] & Hurl & H).
      apply and_then_returns in H. destruct H as ([] & Hinit & H).
      inversion H; subst result. simpl pass. simpl message.
      split; [split; discriminate|]. intros _. split; [reflexivity|].
      exists input, init, expectedUrl, requestUrl, mockBody.
      simpl fst in *. simpl snd in *.
      unfold expect_toEqual in Hurl. unfold expect_toMatchObject in Hinit.
      destruct (toEqual requestUrl expectedUrl); [|discriminate].
      destruct (toMatchObject init _); [|discriminate].
      repeat split; assumption.
    + intros H. inversion H; subst result. simpl pass.
      split; [split; reflexivity|discriminate].
Qed.

(** A GET request that was made is matched: the counter moves from 0 to 1,
    the verdict is [pass: true], and the request is the first call. *)
Lemma toMatchMadeHttpRequest_verdict_example :
  toMatchMadeHttpRequest same_text any_object (fun _ _ _ => boom)
    (fun input => Returns input) parse_empty_object one_call 0 get_request
  = (1%nat, Returns {| pass := true;
                       message := "The expected HTTP requests have been seen" |})
  /\ is_Some (one_call !! 0%nat).
Proof.
  destruct (toMatchMadeHttpRequest_verdict same_text any_object (fun _ _ _ => boom)
              (fun input => Returns input) parse_empty_object one_call 0 get_request)
    as (Hcounter & _ & Hresult).
  destruct (Hresult {| pass := true;
                       message := "The expected HTTP requests have been seen" |} eq_refl)
    as [Hfalse _].
  split; [reflexivity|].
  destruct (one_call !! 0%nat) as [call|] eqn:Hcall; [now exists call|].
  destruct Hfalse as [_ Hfalse]. discriminate (Hfalse eq_refl).
Defined.
